(** * Visual Product Matcher: embedding index lifecycle and top-k retrieval

    A shallow embedding of [backend/clip_model.py]: the persisted index
    ([save_embeddings], [load_embeddings]), the index builder ([build_index]),
    the staleness decision of [ensure_index] and the ranking of [search].

    Conventions of the model.
    - Python [float] values (scores, embedding coordinates, [min_score]) are
      rationals [Q]; rounding of float32 arithmetic is not modelled.  Every
      concrete input used below has coordinates in {-1, 0, 1}, on which
      float32 arithmetic is exact.
    - Python [int] values ([top_k], [count], [created_at]) are [Z].
    - The dict read from and written to [embeddings.json] is the record
      [index]: one optional field for each key the program reads or writes.
    - The CLIP model, image loading and [torch.topk] are collaborators; they
      enter as the type classes [Clip] and [Torch].
    - Output on stderr ([eprint]) is not modelled. *)

From Stdlib Require Import ZArith QArith Lqa Sorted Permutation.
From stdpp Require Import gmap strings list fin_maps sorting.

Open Scope string_scope.
Open Scope list_scope.

(** ** Data model *)

(** A catalog entry of [products.json]. *)
Record product := {
  p_id : string;
  p_name : string;
  p_category : string;
  p_image_url : string;
}.

(** An element of the [items] list: [{'id': pid, 'embedding': vec.tolist()}]. *)
Record vector_record := {
  v_id : string;
  v_embedding : list Q;
}.

(** The index dict.  A key that is missing from the dict is [None]. *)
Record index := {
  ix_model : option string;
  ix_created_at : option Z;
  ix_count : option Z;
  ix_items : option (list vector_record);
}.

(** The empty dict [{}], which [load_embeddings] returns for a missing file. *)
Definition empty_dict : index :=
  {| ix_model := None; ix_created_at := None; ix_count := None; ix_items := None |}.

(** [not idx]: a dict is falsy exactly when it has no key. *)
Definition dict_is_empty (idx : index) : bool :=
  match ix_model idx, ix_created_at idx, ix_count idx, ix_items idx with
  | None, None, None, None => true
  | _, _, _, _ => false
  end.

(** A dict that has the four keys of a persisted index. *)
Definition index_shaped (idx : index) : bool :=
  match ix_model idx, ix_created_at idx, ix_count idx, ix_items idx with
  | Some _, Some _, Some _, Some _ => true
  | _, _, _, _ => false
  end.

(** One element of [results] in the answer of [search]. *)
Record search_result := {
  r_id : string;
  r_name : string;
  r_category : string;
  r_image_url : string;
  r_score : Q;
}.

(** The answer of [search]: [{'count': len(results), 'results': results}]. *)
Record search_output := {
  out_count : Z;
  out_results : list search_result;
}.

(** Exceptions that the modelled functions can raise. *)
Inductive exn :=
| FileNotFoundError        (* products.json cannot be opened *)
| JSONDecodeError          (* json.load on a text that is not JSON *)
| KeyError (key : string)  (* d[key] on a dict without that key *)
| EmptyEmbeddingsIndex     (* RuntimeError('Empty Embeddings Index') *)
| ImageError               (* load_image or preprocess failed *)
| ModelError               (* model.encode_image failed *)
| ShapeError               (* tensors of incompatible shapes *)
| TopkRangeError           (* torch.topk called with k out of range *)
| IndexError.              (* list index out of range *)

Inductive result (A : Type) :=
| Ok (a : A)
| Raise (e : exn).
Arguments Ok {A} a.
Arguments Raise {A} e.

(** What the file [embeddings.json] holds: a text that [json.load] rejects
    (the text is kept to tell the empty file from other garbage), or the JSON
    text of a dict. *)
Inductive file_content :=
| Unparsable (raw : string)
| Doc (d : index).

(** The part of the file system and of the environment the program touches. *)
Record world := {
  products_json : option (list product);
  embeddings_json : option file_content;
  clock : Z;
}.

Definition MODEL_NAME : string := "ViT-B/32".

(** Batch size [B] of [build_index]. *)
Definition B : nat := 16.

(** Defaults of the command line: [--top_k] and [--min_score]. *)
Definition default_top_k : Z := 12.
Definition default_min_score : Q := 0.

Definition set_embeddings (f : option file_content) (w : world) : world :=
  {| products_json := products_json w; embeddings_json := f; clock := clock w |}.

(** ** EmbeddingStore *)

Definition load_products (w : world) : result (list product) :=
  match products_json w with
  | Some ps => Ok ps
  | None => Raise FileNotFoundError
  end.

(** The dict that [save_embeddings] serialises. *)
Definition payload (items : list vector_record) (w : world) : index :=
  {| ix_model := Some MODEL_NAME;
     ix_created_at := Some (clock w);
     ix_count := Some (Z.of_nat (length items));
     ix_items := Some items |}.

(** [open(EMBEDDINGS_JSON, 'w')]: the file is created, or truncated to zero
    length when it exists. *)
Definition open_w (w : world) : world :=
  set_embeddings (Some (Unparsable "")) w.

(** [json.dump(payload, f)] followed by the close of the [with] block. *)
Definition json_dump (d : index) (w : world) : world :=
  set_embeddings (Some (Doc d)) w.

(** The states of the world that [save_embeddings] goes through, in order:
    after [open], and after the dump. *)
Definition save_embeddings_trace (items : list vector_record) (w : world) : list world :=
  [open_w w; json_dump (payload items w) (open_w w)].

Definition save_embeddings (items : list vector_record) (w : world) : world :=
  json_dump (payload items w) (open_w w).

Definition load_embeddings (w : world) : result index :=
  match embeddings_json w with
  | None => Ok empty_dict
  | Some (Unparsable _) => Raise JSONDecodeError
  | Some (Doc d) => Ok d
  end.

(** ** StalenessPolicy *)

(** [idx.get('count', 0)]. *)
Definition get_count (idx : index) : Z := default 0%Z (ix_count idx).

(** [idx.get('model') != MODEL_NAME]. *)
Definition model_differs (idx : index) : bool :=
  bool_decide (ix_model idx ≠ Some MODEL_NAME).

(** The condition of [ensure_index]:
    [rebuild or not idx or idx.get('model') != MODEL_NAME
     or idx.get('count', 0) < len(products)]. *)
Definition needs_rebuild (rebuild : bool) (idx : index) (products : list product) : bool :=
  rebuild || dict_is_empty idx || model_differs idx
  || (get_count idx <? Z.of_nat (length products))%Z.

(** ** Collaborators *)

(** The CLIP model with its preprocessing, and image loading.  [None] stands
    for a raised exception.  [encode_image] takes a batch and stands for
    lines 105-108: encode, divide by the norm, convert to lists. *)
Class Clip := {
  Image : Type;
  Tensor : Type;
  load_image : string -> option Image;
  preprocess : Image -> option Tensor;
  encode_image : list Tensor -> option (list (list Q));
}.

(** A selected pair comes before another when its value is not smaller. *)
Definition before (a b : Q * nat) : Prop := (b.1 <= a.1)%Q.

(** [torch.topk(sims, k)] as the list [zip(vals.tolist(), idxs.tolist())]. *)
Class Torch := {
  topk : list Q -> nat -> list (Q * nat);
}.

(** What the documentation of [torch.topk] promises for [0 <= k <= len(sims)]:
    [k] distinct positions with their values, in descending order of value,
    none of them smaller than a value left out.  The order among equal
    values is not specified. *)
Class TopkSpec (T : Torch) : Prop := {
  topk_length : forall sims k, k <= length sims -> length (topk sims k) = k;
  topk_lookup : forall sims k v i,
    k <= length sims -> (v, i) ∈ topk sims k -> sims !! i = Some v;
  topk_nodup : forall sims k, k <= length sims -> NoDup (topk sims k).*2;
  topk_sorted : forall sims k,
    k <= length sims -> StronglySorted before (topk sims k);
  topk_largest : forall sims k v i j u,
    k <= length sims -> (v, i) ∈ topk sims k ->
    sims !! j = Some u -> j ∉ (topk sims k).*2 -> (u <= v)%Q;
}.

(** ** The [result] monad *)

Global Instance result_ret : MRet result := fun A a => Ok a.

Global Instance result_bind : MBind result := fun A R f r =>
  match r with
  | Ok a => f a
  | Raise e => Raise e
  end.

(** [o] when it holds a value, exception [e] otherwise. *)
Definition or_raise {A : Type} (e : exn) (o : option A) : result A :=
  match o with
  | Some a => Ok a
  | None => Raise e
  end.

(** The ids of the results of an answer, in order, when there is one. *)
Definition result_ids (r : result search_output) : option (list string) :=
  match r with
  | Ok out => Some (r_id <$> out_results out)
  | Raise _ => None
  end.

(** ** IndexBuilder *)

Section Builder.
Context {C : Clip}.

(** The variables that [flush_batch] shares with the loop of [build_index]. *)
Record batch_state := {
  bs_items : list vector_record;
  bs_imgs : list Tensor;
  bs_ids : list string;
}.

Definition init_batch : batch_state :=
  {| bs_items := []; bs_imgs := []; bs_ids := [] |}.

Definition mk_record (pf : string * list Q) : vector_record :=
  {| v_id := pf.1; v_embedding := pf.2 |}.

(** [flush_batch()]: nothing on an empty batch; otherwise the batch is
    encoded, one record is appended for each pair of [zip(batch_ids, feats)],
    and the batch is emptied.  An exception of the model leaves the state
    as it was. *)
Definition flush_batch (st : batch_state) : result batch_state :=
  match bs_imgs st with
  | [] => Ok st
  | _ :: _ =>
      feats ← or_raise ModelError (encode_image (bs_imgs st));
      Ok {| bs_items := bs_items st ++ (mk_record <$> zip (bs_ids st) feats);
            bs_imgs := [];
            bs_ids := [] |}
  end.

(** The two appends of the loop body. *)
Definition push (t : Tensor) (pid : string) (st : batch_state) : batch_state :=
  {| bs_items := bs_items st;
     bs_imgs := bs_imgs st ++ [t];
     bs_ids := bs_ids st ++ [pid] |}.

(** One iteration of [for p in products].  The whole body, the call of
    [flush_batch] included, is inside the [try]: any exception ends the
    iteration and keeps what the body did before it. *)
Definition build_step (st : batch_state) (p : product) : batch_state :=
  match load_image (p_image_url p) with
  | None => st
  | Some img =>
      match preprocess img with
      | None => st
      | Some t =>
          let st1 := push t (p_id p) st in
          if decide (B <= length (bs_imgs st1)) then
            match flush_batch st1 with
            | Ok st2 => st2
            | Raise _ => st1
            end
          else st1
      end
  end.

(** The dict that [build_index] returns; it has no [count] and no
    [created_at]. *)
Definition built (items : list vector_record) : index :=
  {| ix_model := Some MODEL_NAME;
     ix_created_at := None;
     ix_count := None;
     ix_items := Some items |}.

(** [build_index]: the loop, the last flush (outside the [try]: its
    exception ends the build before anything is saved), the save. *)
Definition build_index (products : list product) (w : world) : result index * world :=
  match flush_batch (foldl build_step init_batch products) with
  | Raise e => (Raise e, w)
  | Ok st => (Ok (built (bs_items st)), save_embeddings (bs_items st) w)
  end.

Definition ensure_index (rebuild : bool) (w : world) : result index * world :=
  match load_products w with
  | Raise e => (Raise e, w)
  | Ok products =>
      match load_embeddings w with
      | Raise e => (Raise e, w)
      | Ok idx =>
          if needs_rebuild rebuild idx products
          then build_index products w
          else (Ok idx, w)
      end
  end.

End Builder.

(** ** SimilaritySearch *)

Global Instance Qle_decision : RelDecision Qle := fun x y =>
  match Qlt_le_dec y x with
  | left H => right (Qlt_not_le y x H)
  | right H => left H
  end.

(** [score < min_score] on floats. *)
Definition Qltb (x y : Q) : bool := negb (Qle_bool y x).

(** A row of [a @ b.T]: the sum of the products of the coordinates. *)
Definition dot (a b : list Q) : Q := foldr Qplus 0%Q (zip_with Qmult a b).

(** [np.array(emb_list)] gives a matrix only when all rows have one length. *)
Definition rectangular (rows : list (list Q)) : bool :=
  match rows with
  | [] => true
  | r :: rs => forallb (fun r' => Nat.eqb (length r') (length r)) rs
  end.

(** [pmap = {p['id']: p for p in products}]: a later product replaces an
    earlier one with the same id. *)
Definition catalog_map (products : list product) : gmap string product :=
  foldl (fun m p => <[p_id p := p]> m) ∅ products.

(** [[it for it in index['items'] if it['id'] in pmap]]. *)
Definition retained (pmap : gmap string product) (items : list vector_record)
  : list vector_record :=
  filter (fun it => is_Some (pmap !! v_id it)) items.

Definition mk_result (p : product) (score : Q) : search_result :=
  {| r_id := p_id p; r_name := p_name p; r_category := p_category p;
     r_image_url := p_image_url p; r_score := score |}.

(** The loop [for score, i in zip(vals.tolist(), idxs.tolist())]. *)
Fixpoint collect (pmap : gmap string product) (ids : list string) (min_score : Q)
    (sel : list (Q * nat)) : result (list search_result) :=
  match sel with
  | [] => Ok []
  | (score, i) :: rest =>
      if Qltb score min_score then collect pmap ids min_score rest
      else
        pid ← or_raise IndexError (ids !! i);
        p ← or_raise (KeyError pid) (pmap !! pid);
        results ← collect pmap ids min_score rest;
        Ok (mk_result p score :: results)
  end.

Section Search.
Context {C : Clip} {T : Torch}.

(** Lines 145-176 of [search], from the catalog, the items of the index and
    the outcome [rq] of encoding the query image (lines 155-160), which is
    looked at only where the source computes it. *)
Definition query (rq : result (list Q)) (items : list vector_record)
    (products : list product) (top_k : Z) (min_score : Q) : result search_output :=
  let pmap := catalog_map products in
  let emb_list := v_embedding <$> retained pmap items in
  let ids := v_id <$> retained pmap items in
  match emb_list with
  | [] => Raise EmptyEmbeddingsIndex
  | row :: _ =>
      if negb (rectangular emb_list) then Raise ShapeError else
      qf ← rq;
      if negb (Nat.eqb (length qf) (length row)) then Raise ShapeError else
      let sims := dot qf <$> emb_list in
      let k := Z.min top_k (Z.of_nat (length sims)) in
      if (k <? 0)%Z then Raise TopkRangeError else
      results ← collect pmap ids min_score (topk sims (Z.to_nat k));
      Ok {| out_count := Z.of_nat (length results); out_results := results |}
  end.

(** Lines 155-160: load the query image and encode it as a batch of one. *)
Definition encode_query (query_path : string) : result (list Q) :=
  img ← or_raise ImageError (load_image query_path);
  t ← or_raise ImageError (preprocess img);
  rows ← or_raise ModelError (encode_image [t]);
  match rows with
  | [qf] => Ok qf
  | _ => Raise ShapeError
  end.

Definition search (query_path : string) (top_k : Z) (min_score : Q) (w : world)
  : result search_output * world :=
  match load_products w with
  | Raise e => (Raise e, w)
  | Ok products =>
      match ensure_index false w with
      | (Raise e, w1) => (Raise e, w1)
      | (Ok idx, w1) =>
          (items ← or_raise (KeyError "items") (ix_items idx);
           query (encode_query query_path) items products top_k min_score, w1)
      end
  end.

End Search.

(** ** Two implementations of [topk] *)

(** Insertion into a list in descending order; [skip x y] tells whether [x]
    goes behind [y]. *)
Fixpoint insert_desc (skip : Q -> Q -> bool) (x : Q * nat) (l : list (Q * nat))
  : list (Q * nat) :=
  match l with
  | [] => [x]
  | y :: l' =>
      if skip x.1 y.1 then y :: insert_desc skip x l' else x :: y :: l'
  end.

Definition sort_desc (skip : Q -> Q -> bool) (l : list (Q * nat)) : list (Q * nat) :=
  foldr (insert_desc skip) [] l.

Definition topk_by (skip : Q -> Q -> bool) (sims : list Q) (k : nat) : list (Q * nat) :=
  take k (sort_desc skip (zip sims (seq 0 (length sims)))).

(** Among equal values the one seen first comes first. *)
Definition topk_first : Torch := {| topk := topk_by Qltb |}.

(** Among equal values the one seen last comes first. *)
Definition topk_last : Torch := {| topk := topk_by Qle_bool |}.

Definition prod1 : product :=
  {| p_id := "p1"; p_name := "one"; p_category := "c"; p_image_url := "u1" |}.
Definition prod2 : product :=
  {| p_id := "p2"; p_name := "two"; p_category := "c"; p_image_url := "u2" |}.

Definition prod3 : product :=
  {| p_id := "p3"; p_name := "three"; p_category := "c"; p_image_url := "u3" |}.

(** A model for scenarios: the image at ["missing"] cannot be loaded, the
    image at ["broken"] cannot be preprocessed, the image at ["neg"] maps to
    [[-1]] and every other image to [[1]]. *)
Definition demo_embed (t : string) : list Q :=
  if decide (t = "neg") then [(-1)%Q] else [1%Q].

Definition clip_demo : Clip :=
  {| Image := string; Tensor := string;
     load_image := fun url => if decide (url = "missing") then None else Some url;
     preprocess := fun img => if decide (img = "broken") then None else Some img;
     encode_image := fun ts => Some (demo_embed <$> ts) |}.

(** A model that is out of reach: every batch raises. *)
Definition clip_down : Clip :=
  {| Image := string; Tensor := string;
     load_image := fun url => Some url;
     preprocess := fun img => Some img;
     encode_image := fun _ => None |}.

Definition vrec (pid : string) (e : list Q) : vector_record :=
  {| v_id := pid; v_embedding := e |}.

Definition world0 : world :=
  {| products_json := Some [prod1; prod2; prod3];
     embeddings_json := None;
     clock := 1700000000 |}.

Definition prod_missing : product :=
  {| p_id := "p4"; p_name := "four"; p_category := "c"; p_image_url := "missing" |}.

(** A catalog longer than one batch, with an entry whose image is missing. *)
Definition big_catalog : list product :=
  replicate 15 prod1 ++ [prod_missing; prod2; prod3].

Definition catalog3 : list product := [prod1; prod2; prod3].

(** Two records that tie under the query [[1]] and one that scores -1. *)
Definition items_tie_neg : list vector_record :=
  [vrec "p1" [1%Q]; vrec "p2" [1%Q]; vrec "p3" [(-1)%Q]].

(** One record, opposite to the query [[1]]. *)
Definition items_neg : list vector_record := [vrec "p1" [(-1)%Q]].

(** The index of the scenario: vectors for [p1] and [p2] only. *)
Definition items_p1_p2 : list vector_record := [vrec "p1" [1%Q]; vrec "p2" [1%Q]].

(** A world whose persisted index was written for another model. *)
Definition world_model_A : world :=
  {| products_json := Some catalog3;
     embeddings_json :=
       Some (Doc {| ix_model := Some "A"; ix_created_at := Some 1600000000%Z;
                    ix_count := Some 3%Z;
                    ix_items := Some [vrec "p1" [1%Q]; vrec "p2" [1%Q]; vrec "p3" [1%Q]] |});
     clock := 1700000000 |}.

(** A world whose persisted index is current, with a record of a product
    that left the catalog. *)
Definition world_stale_record : world :=
  {| products_json := Some [prod1; prod2];
     embeddings_json :=
       Some (Doc (payload [vrec "p1" [1%Q]; vrec "p2" [1%Q]; vrec "p3" [1%Q]] world0));
     clock := 1700000000 |}.

(** ** Statements of the specification *)

(** The per-item reading of the builder: the record of one catalog entry,
    when its image loads and preprocesses, for a per-item embedding [embed]. *)
Definition embed_one {C : Clip} (embed : Tensor -> list Q) (p : product)
  : option vector_record :=
  img ← load_image (p_image_url p);
  t ← preprocess img;
  Some {| v_id := p_id p; v_embedding := embed t |}.

(** The successfully processed catalog entries, in catalog order. *)
Definition successes {C : Clip} (embed : Tensor -> list Q) (products : list product)
  : list vector_record :=
  omap (embed_one embed) products.

(** The records a batch state stands for once its pending batch is flushed
    through the per-item embedding [embed]. *)
Definition flushed {C : Clip} (embed : Tensor -> list Q) (st : batch_state)
  : list vector_record :=
  bs_items st ++ (mk_record <$> zip (bs_ids st) (embed <$> bs_imgs st)).

(** The two batch lists of the loop run in step. *)
Definition aligned {C : Clip} (st : batch_state) : Prop :=
  length (bs_ids st) = length (bs_imgs st).

(** The world at another time of the clock. *)
Definition at_time (t : Z) (w : world) : world :=
  {| products_json := products_json w; embeddings_json := embeddings_json w; clock := t |}.

(** A save is atomic when every state it goes through holds the file as it
    was before, or the file as it is after. *)
Definition atomic_save (items : list vector_record) (w : world) : Prop :=
  forall w', w' ∈ save_embeddings_trace items w ->
    embeddings_json w' = embeddings_json w
    \/ embeddings_json w' = embeddings_json (save_embeddings items w).

(** The number of index records whose id exists in the catalog. *)
Definition matched (items : list vector_record) (products : list product) : nat :=
  length (retained (catalog_map products) items).

(** The scores against [q] of the index records kept by the catalog join. *)
Definition scores (q : list Q) (items : list vector_record) (products : list product)
  : list Q :=
  dot q <$> (v_embedding <$> retained (catalog_map products) items).

(** The number of results the top-k step selects. *)
Definition selected (top_k : Z) (items : list vector_record) (products : list product)
  : nat :=
  Z.to_nat (Z.min top_k (Z.of_nat (matched items products))).

(** The checks that [query] makes before its loop; they give the encoded
    query or the exception raised. *)
Definition query_guard (rq : result (list Q)) (items : list vector_record)
    (products : list product) (top_k : Z) : result (list Q) :=
  match retained (catalog_map products) items with
  | [] => Raise EmptyEmbeddingsIndex
  | it :: _ =>
      if negb (rectangular (v_embedding <$> retained (catalog_map products) items))
      then Raise ShapeError else
      qf ← rq;
      if negb (Nat.eqb (length qf) (length (v_embedding it))) then Raise ShapeError else
      if (Z.min top_k (Z.of_nat (matched items products)) <? 0)%Z
      then Raise TopkRangeError else Ok qf
  end.

(** Scores in descending order, equal neighbours allowed. *)
Definition descending (l : list Q) : Prop :=
  StronglySorted (fun a b => (b <= a)%Q) l.

(** Scores in strictly descending order. *)
Definition strictly_descending (l : list Q) : Prop :=
  StronglySorted (fun a b => (b < a)%Q) l.

(** The result that [search] makes of a selected pair [(score, i)]: the
    catalog product that has the id of the [i]-th retained record, with the
    score, which is the similarity of that record to the query. *)
Definition result_of (q : list Q) (items : list vector_record)
    (products : list product) (r : search_result) (s : Q * nat) : Prop :=
  exists it p,
    retained (catalog_map products) items !! s.2 = Some it
    /\ catalog_map products !! v_id it = Some p
    /\ s.1 = dot q (v_embedding it)
    /\ r = mk_result p s.1.

(** A model that raises on every batch that holds the tensor of the image
    at ["poison"], and embeds every other batch item by item. *)
Definition clip_poison : Clip :=
  {| Image := string; Tensor := string;
     load_image := fun url => Some url;
     preprocess := fun img => Some img;
     encode_image := fun ts =>
       if decide ("poison" ∈ ts) then None else Some (demo_embed <$> ts) |}.

Definition prod_poison : product :=
  {| p_id := "p2"; p_name := "two"; p_category := "c"; p_image_url := "poison" |}.

(** A catalog with one entry that the model cannot embed. *)
Definition catalog_poison : list product := [prod1; prod_poison; prod3].

(** ** Further notions used below *)

Global Instance Qlt_decision : RelDecision Qlt := fun x y =>
  match Qlt_le_dec x y with
  | left H => left H
  | right H => right (Qle_not_lt y x H)
  end.

(** The same id as [prod1] under another name. *)
Definition prod1_renamed : product :=
  {| p_id := "p1"; p_name := "one, renamed"; p_category := "c2"; p_image_url := "u9" |}.


(** Lines 115-116 for one catalog entry: the tensor of its image, when the
    image loads and preprocesses. *)
Definition prepare {C : Clip} (p : product) : option Tensor :=
  img ← load_image (p_image_url p);
  preprocess img.

(** A catalog entry that [build_index] leaves out. *)
Definition fails_to_embed {C : Clip} (p : product) : Prop := prepare p = None.

(** A world whose catalog is longer than a batch and has an entry whose
    image is missing. *)
Definition world_big : world :=
  {| products_json := Some big_catalog; embeddings_json := None; clock := 1700000000 |}.

(** What [search] answers from the outcome of [ensure_index]: lines 145-176. *)
Definition answer_from {C : Clip} {T : Torch} (query_path : string) (top_k : Z)
    (min_score : Q) (products : list product) (ri : result index)
  : result search_output :=
  idx ← ri;
  items ← or_raise (KeyError "items") (ix_items idx);
  query (encode_query query_path) items products top_k min_score.

(** ** cosine_similarity *)

(** [a @ b.T] on matrices given by their rows: the entry at row [i] and
    column [j] is the dot product of row [i] of [a] and row [j] of [b].  The
    product raises unless [a] and [b] have the same number of columns. *)
Definition cosine_similarity (a b : list (list Q)) : result (list (list Q)) :=
  if rectangular (a ++ b) then Ok ((fun ra => dot ra <$> b) <$> a)
  else Raise ShapeError.

(** The entry of a matrix at a row and a column, when there is one. *)
Definition entry (m : list (list Q)) (i j : nat) : option Q :=
  row ← m !! i; row !! j.

(** ** Image loading and its cache *)

Module ImageIO.

(** What [load_image] takes from its environment: the directory of the
    program, [hashlib.sha1(...).hexdigest()], and the decoding done by
    [Image.open(path).convert("RGB")] on the bytes of a file. *)
Class Env := {
  ROOT : string;
  sha1 : string -> string;
  Pixels : Type;
  decode : list Byte.byte -> option Pixels;
}.

(** The file system is the map from the paths of the regular files to their
    bytes, [gmap string (list Byte.byte)].  Directories are not modelled:
    [CACHE_DIR.mkdir(parents=True, exist_ok=True)] is taken to succeed. *)

(** [urllib.request.urlopen(req, timeout=30)] followed by [resp.read()]:
    the body served for a URL, or [None] for a raised exception. *)
Definition network : Type := string -> option (list Byte.byte).

Inductive io_error :=
| URLError      (* urlopen or read raised *)
| NoSuchFile    (* Image.open on a path that is not a file *)
| BadImage.     (* Image.open or convert on bytes that are not an image *)

Inductive outcome (A : Type) :=
| Done (a : A)
| Failed (e : io_error).
Arguments Done {A} a.
Arguments Failed {A} e.

Definition is_url (s : string) : bool :=
  String.prefix "http://" s || String.prefix "https://" s.

Section WithEnv.
Context {E : Env}.

Definition DATA_DIR : string := ROOT +:+ "/data".
Definition CACHE_DIR : string := DATA_DIR +:+ "/images_cache".

Definition url_to_cache_path (url : string) : string :=
  CACHE_DIR +:+ "/" +:+ sha1 url +:+ ".jpg".

(** [download_to_cache]: a cached file that is not empty is returned as it
    is; otherwise the URL is fetched and the body written to the cache. *)
Definition download_to_cache (net : network) (url : string) (fs : gmap string (list Byte.byte))
  : outcome string * gmap string (list Byte.byte) :=
  let p := url_to_cache_path url in
  match fs !! p with
  | Some (_ :: _) => (Done p, fs)
  | _ =>
      match net url with
      | None => (Failed URLError, fs)
      | Some data => (Done p, <[p := data]> fs)
      end
  end.

(** [Image.open(path).convert("RGB")]. *)
Definition open_image (path : string) (fs : gmap string (list Byte.byte)) : outcome Pixels :=
  match fs !! path with
  | None => Failed NoSuchFile
  | Some data =>
      match decode data with
      | None => Failed BadImage
      | Some px => Done px
      end
  end.

Definition load_image (net : network) (path_or_url : string) (fs : gmap string (list Byte.byte))
  : outcome Pixels * gmap string (list Byte.byte) :=
  if is_url path_or_url then
    match download_to_cache net path_or_url fs with
    | (Done path, fs1) => (open_image path fs1, fs1)
    | (Failed e, fs1) => (Failed e, fs1)
    end
  else (open_image path_or_url fs, fs).

End WithEnv.

(** An environment for examples: the hash keeps the last character of the
    URL, and the only image is the file that holds the one byte 0x41. *)
Definition last_char (s : string) : string :=
  String.substring (String.length s - 1) 1 s.

Definition env_demo : Env :=
  {| ROOT := "/app"; sha1 := last_char; Pixels := list Byte.byte;
     decode := fun data =>
       match data with
       | [Byte.x41] => Some data
       | _ => None
       end |}.

(** A network that serves the image for every URL, one that serves a byte
    that is no image, and one that is down. *)
Definition net_up : network := fun _ => Some [Byte.x41].
Definition net_garbage : network := fun _ => Some [Byte.x42].
Definition net_down : network := fun _ => None.

End ImageIO.

(** ** Classification and the command line *)

(** [clip.tokenize] and [model.encode_text] with the division by the norm
    (lines 185-187), on a list of texts. *)
Class TextModel := {
  encode_text : list string -> option (list (list Q));
}.

(** [int(sims.argmax())] as torch documents it: the position of the first
    maximal value, with the value; nothing on an empty tensor. *)
Fixpoint argmax_val (l : list Q) : option (nat * Q) :=
  match l with
  | [] => None
  | x :: l' =>
      match argmax_val l' with
      | None => Some (0, x)
      | Some (i, y) => if Qltb x y then Some (S i, y) else Some (0, x)
      end
  end.

Definition argmax (l : list Q) : option nat := fst <$> argmax_val l.

Definition categories : list string :=
  ["Shirts"; "Shoes"; "Laptops"; "Smartphones"; "Headphones"; "Watches"].

(** [texts = [f"a photo of {c}" for c in categories]]. *)
Definition texts : list string := (fun c => "a photo of " +:+ c) <$> categories.

(** The dict that [classify] returns. *)
Record classification := {
  c_category : string;
  c_name : string;
}.

(** The arguments after [parser.parse_args()]. *)
Record args := {
  arg_image : string;
  arg_top_k : Z;
  arg_min_score : Q;
  arg_rebuild : bool;
  arg_classify : bool;
}.

(** A line printed on stdout: [json.dumps] of an answer or of
    [{'error': str(ex)}]. *)
Inductive line :=
| SearchLine (out : search_output)
| ClassifyLine (c : classification)
| ErrorLine (ex : exn).

(** How [main] ends: it returns, it calls [sys.exit(code)], or an exception
    leaves it uncaught. *)
Inductive ending :=
| Returned
| Exited (code : Z)
| Uncaught (ex : exn).

Record run := {
  stdout : list line;
  status : ending;
}.

Section CommandLine.
Context {C : Clip} {T : Torch} {X : TextModel}.

(** [classify]: the texts are encoded first; lines 189-192 load and encode
    the image as [encode_query] does; the similarities are the dot products
    with the text vectors. *)
Definition classify (image_path : string) : result classification :=
  text_features ← or_raise ModelError (encode_text texts);
  qf ← encode_query image_path;
  if negb (forallb (fun row => Nat.eqb (length row) (length qf)) text_features)
  then Raise ShapeError else
  best_idx ← or_raise ShapeError (argmax (dot qf <$> text_features));
  best_category ← or_raise IndexError (categories !! best_idx);
  Ok {| c_category := best_category; c_name := "Uploaded " +:+ best_category |}.

(** Lines 229-235: the search inside its [try]. *)
Definition search_and_print (a : args) (w : world) : run * world :=
  match search (arg_image a) (arg_top_k a) (arg_min_score a) w with
  | (Ok out, w1) => ({| stdout := [SearchLine out]; status := Returned |}, w1)
  | (Raise ex, w1) => ({| stdout := [ErrorLine ex]; status := Exited 1 |}, w1)
  end.

(** [main] from after the parsing of the arguments and the loading of the
    model. *)
Definition main (a : args) (w : world) : run * world :=
  if arg_classify a then
    match classify (arg_image a) with
    | Ok out => ({| stdout := [ClassifyLine out]; status := Returned |}, w)
    | Raise ex => ({| stdout := [ErrorLine ex]; status := Exited 1 |}, w)
    end
  else if arg_rebuild a then
    match ensure_index true w with
    | (Raise ex, w1) => ({| stdout := []; status := Uncaught ex |}, w1)
    | (Ok _, w1) => search_and_print a w1
    end
  else search_and_print a w.

End CommandLine.

(** A text model for examples: every text maps to [[1]] but the text for
    ["Shoes"], which maps to [[2]]. *)
Definition text_demo : TextModel :=
  {| encode_text := fun ts =>
       Some ((fun t => if decide (t = "a photo of Shoes") then [2%Q] else [1%Q]) <$> ts) |}.

(** A world whose persisted file is not JSON. *)
Definition world_unparsable : world :=
  set_embeddings (Some (Unparsable "{")) world0.

(** A world whose catalog was swapped: the persisted index is current and
    holds two records, the catalog holds one product, of another id. *)
Definition world_swapped : world :=
  {| products_json := Some [prod3];
     embeddings_json := Some (Doc (payload items_p1_p2 world0));
     clock := 1700000000 |}.

(** A world whose persisted dict has no [items]. *)
Definition world_no_items : world :=
  set_embeddings
    (Some (Doc {| ix_model := Some MODEL_NAME; ix_created_at := None;
                  ix_count := Some 3%Z; ix_items := None |})) world0.

Definition args_classify : args :=
  {| arg_image := "q"; arg_top_k := default_top_k; arg_min_score := default_min_score;
     arg_rebuild := true; arg_classify := true |}.

(** * Properties *)

(** ** EmbeddingStore *)

Lemma dict_is_empty_iff (idx : index) :
  dict_is_empty idx = true <-> idx = empty_dict.
Proof.
  split.
  - destruct idx as [[m|] [t|] [c|] [its|]]; simpl; intros H;
      first [discriminate H | reflexivity].
  - intros ->. reflexivity.
Qed.

Lemma model_differs_iff (idx : index) :
  model_differs idx = true <-> ix_model idx <> Some MODEL_NAME.
Proof. unfold model_differs. apply bool_decide_eq_true. Qed.

(** C6, as amended.  [save_embeddings] leaves in the file the model name,
    the time of the clock, [count = len(items)] and the items; it changes
    nothing else of the world; what the file held before has no influence;
    and it goes through one intermediate state, in which the file exists
    and is empty. *)
Theorem save_embeddings_writes (items : list vector_record) (w : world) :
  load_embeddings (save_embeddings items w)
    = Ok {| ix_model := Some MODEL_NAME;
            ix_created_at := Some (clock w);
            ix_count := Some (Z.of_nat (length items));
            ix_items := Some items |}
  /\ products_json (save_embeddings items w) = products_json w
  /\ clock (save_embeddings items w) = clock w
  /\ (forall f, save_embeddings items (set_embeddings f w) = save_embeddings items w)
  /\ save_embeddings_trace items w
     = [set_embeddings (Some (Unparsable "")) w; save_embeddings items w].
Proof.
  repeat split.
Qed.

(** C6, counterexample.  Saving over a persisted index goes through a state
    whose file is neither the old index nor the new one: a reader at that
    point finds an empty file that does not parse. *)
Lemma save_embeddings_not_atomic :
  let w := save_embeddings [vrec "p1" [1%Q]] world0 in
  ~ atomic_save [vrec "p1" [1%Q]; vrec "p2" [1%Q]] w
  /\ exists w', w' ∈ save_embeddings_trace [vrec "p1" [1%Q]; vrec "p2" [1%Q]] w
       /\ load_embeddings w' = Raise JSONDecodeError.
Proof.
  split.
  - intros H. destruct (H (open_w (save_embeddings [vrec "p1" [1%Q]] world0))) as [E|E].
    + apply list_elem_of_here.
    + discriminate E.
    + discriminate E.
  - eexists. split; [apply list_elem_of_here | reflexivity].
Qed.

(** C7, as amended.  [load_embeddings] returns the empty dict when the file
    is missing, returns the parsed dict, whatever keys it has, when the file
    holds JSON, and raises the decoding error exactly when the file holds a
    text that is not JSON. *)
Theorem load_embeddings_cases (w : world) :
  (embeddings_json w = None -> load_embeddings w = Ok empty_dict)
  /\ (forall d, embeddings_json w = Some (Doc d) -> load_embeddings w = Ok d)
  /\ (forall e, load_embeddings w = Raise e ->
        e = JSONDecodeError /\ exists raw, embeddings_json w = Some (Unparsable raw))
  /\ (forall raw, embeddings_json w = Some (Unparsable raw) ->
        load_embeddings w = Raise JSONDecodeError).
Proof.
  unfold load_embeddings. repeat split.
  - intros ->. reflexivity.
  - intros d ->. reflexivity.
  - destruct (embeddings_json w) as [[raw|d]|]; congruence.
  - destruct (embeddings_json w) as [[raw|d]|]; try discriminate. eauto.
  - intros raw ->. reflexivity.
Qed.

Lemma load_embeddings_cases_witness :
  load_embeddings world0 = Ok empty_dict
  /\ load_embeddings (save_embeddings [] world0) = Ok (payload [] world0)
  /\ load_embeddings (open_w world0) = Raise JSONDecodeError.
Proof.
  split; [| split].
  - apply (proj1 (load_embeddings_cases world0)). reflexivity.
  - apply (proj1 (proj2 (load_embeddings_cases (save_embeddings [] world0)))).
    reflexivity.
  - apply (proj2 (proj2 (proj2 (load_embeddings_cases (open_w world0)))) "").
    reflexivity.
Defined.

(** C7, counterexample.  A persisted dict without the [items] key is not of
    the shape of an index, and [load_embeddings] returns it without error. *)
Lemma load_embeddings_accepts_misshapen :
  let d := {| ix_model := Some MODEL_NAME; ix_created_at := None;
              ix_count := Some 3%Z; ix_items := None |} in
  index_shaped d = false
  /\ load_embeddings (set_embeddings (Some (Doc d)) world0) = Ok d.
Proof. split; reflexivity. Qed.

(** ** StalenessPolicy *)

Lemma needs_rebuild_true_model (force : bool) (idx : index) (products : list product) :
  ix_model idx <> Some MODEL_NAME -> needs_rebuild force idx products = true.
Proof.
  intros Hm. unfold needs_rebuild.
  rewrite (proj2 (model_differs_iff idx) Hm), !orb_true_r. reflexivity.
Qed.

(** C2.  The decision of [ensure_index] is true exactly when the rebuild is
    forced, or the index is absent, or its model differs from [MODEL_NAME],
    or its count is below the length of the catalog; it is true for the
    absent index, and false without force for an index of the current model
    whose count is the length of the catalog. *)
Theorem needs_rebuild_iff (force : bool) (idx : index) (products : list product) :
  (needs_rebuild force idx products = true <->
     force = true \/ idx = empty_dict \/ ix_model idx <> Some MODEL_NAME
     \/ (get_count idx < Z.of_nat (length products))%Z)
  /\ needs_rebuild false empty_dict products = true
  /\ (ix_model idx = Some MODEL_NAME ->
      ix_count idx = Some (Z.of_nat (length products)) ->
      needs_rebuild false idx products = false).
Proof.
  split; [| split].
  - unfold needs_rebuild.
    rewrite !orb_true_iff, dict_is_empty_iff, model_differs_iff, Z.ltb_lt.
    tauto.
  - reflexivity.
  - destruct idx as [m t c its]. simpl. intros -> ->.
    unfold needs_rebuild, get_count, model_differs. simpl.
    apply Z.ltb_irrefl.
Qed.

Lemma needs_rebuild_iff_witness :
  needs_rebuild false (payload [vrec "p1" [1%Q]; vrec "p2" [1%Q]; vrec "p3" [1%Q]] world0)
    [prod1; prod2; prod3] = false.
Proof.
  apply (proj2 (proj2 (needs_rebuild_iff false
    (payload [vrec "p1" [1%Q]; vrec "p2" [1%Q]; vrec "p3" [1%Q]] world0)
    [prod1; prod2; prod3]))); reflexivity.
Defined.

(** ** IndexBuilder *)

Section BuilderFacts.
Context {C : Clip}.
Variable embed : Tensor -> list Q.
Hypothesis encode_per_item : forall ts, encode_image ts = Some (embed <$> ts).

Lemma flush_batch_flushed (st : batch_state) :
  aligned st ->
  flush_batch st
  = Ok {| bs_items := flushed embed st; bs_imgs := []; bs_ids := [] |}.
Proof.
  unfold aligned, flush_batch, flushed. destruct st as [its imgs ids]. simpl.
  destruct imgs as [|t imgs]; intros Hlen.
  - destruct ids; [| discriminate Hlen]. simpl. rewrite app_nil_r. reflexivity.
  - rewrite encode_per_item. reflexivity.
Qed.

Lemma push_flushed (t : Tensor) (pid : string) (st : batch_state) :
  aligned st ->
  flushed embed (push t pid st)
  = flushed embed st ++ [{| v_id := pid; v_embedding := embed t |}]
  /\ aligned (push t pid st).
Proof.
  unfold aligned, flushed, push. simpl. intros Hlen. split.
  - rewrite fmap_app, zip_with_app by (rewrite length_fmap; exact Hlen).
    rewrite fmap_app, app_assoc. reflexivity.
  - rewrite !length_app, Hlen. reflexivity.
Qed.

Lemma build_step_flushed (st : batch_state) (p : product) :
  aligned st ->
  flushed embed (build_step st p)
  = flushed embed st ++ option_list (embed_one embed p)
  /\ aligned (build_step st p).
Proof.
  intros Hst. unfold build_step, embed_one.
  destruct (load_image (p_image_url p)) as [img|]; simpl.
  2: { rewrite app_nil_r; auto. }
  destruct (preprocess img) as [t|]; simpl.
  2: { rewrite app_nil_r; auto. }
  destruct (push_flushed t (p_id p) st Hst) as [Hv Ha].
  change (bs_imgs st ++ [t]) with (bs_imgs (push t (p_id p) st)).
  case_decide; [| auto].
  rewrite (flush_batch_flushed _ Ha). split.
  - unfold flushed at 1. simpl. rewrite app_nil_r. exact Hv.
  - reflexivity.
Qed.

Lemma loop_flushed (products : list product) (st : batch_state) :
  aligned st ->
  flushed embed (foldl build_step st products)
  = flushed embed st ++ successes embed products
  /\ aligned (foldl build_step st products).
Proof.
  revert st. induction products as [|p ps IH]; intros st Hst; simpl.
  - rewrite app_nil_r. auto.
  - destruct (build_step_flushed st p Hst) as [Hv Ha].
    destruct (IH _ Ha) as [Hv' Ha']. split; [| exact Ha'].
    rewrite Hv', Hv, <- app_assoc. f_equal.
    unfold successes. simpl. destruct (embed_one embed p); reflexivity.
Qed.

Lemma build_index_successes (products : list product) (w : world) :
  build_index products w
  = (Ok (built (successes embed products)),
     save_embeddings (successes embed products) w).
Proof.
  unfold build_index.
  destruct (loop_flushed products init_batch) as [Hv Ha]; [reflexivity |].
  rewrite (flush_batch_flushed _ Ha). simpl. rewrite Hv. reflexivity.
Qed.

End BuilderFacts.

(** C4, as amended.  With a model that embeds every batch item by item and
    does not raise, [build_index] returns and persists exactly the records
    of the catalog entries whose image loads and preprocesses, in catalog
    order, whatever the batches were; the persisted [count] is their number;
    an entry whose image does not load or preprocess is left out and the
    build goes on; when every entry fails in that way the result is the
    empty index, persisted with count 0, and no error. *)
Theorem build_index_items {C : Clip} (embed : Tensor -> list Q)
    (products : list product) (w : world) :
  (forall ts, encode_image ts = Some (embed <$> ts)) ->
  let items := successes embed products in
  build_index products w = (Ok (built items), save_embeddings items w)
  /\ ix_items (built items) = Some items
  /\ load_embeddings (save_embeddings items w)
     = Ok {| ix_model := Some MODEL_NAME; ix_created_at := Some (clock w);
             ix_count := Some (Z.of_nat (length items)); ix_items := Some items |}
  /\ (forall it, it ∈ items <->
        exists p, p ∈ products /\ embed_one embed p = Some it)
  /\ (forall p, p ∈ products -> embed_one embed p = None ->
        forall ps1 ps2, products = ps1 ++ p :: ps2 ->
        items = successes embed ps1 ++ successes embed ps2)
  /\ ((forall p, p ∈ products -> embed_one embed p = None) ->
        items = []
        /\ build_index products w = (Ok (built []), save_embeddings [] w)).
Proof.
  intros Henc items.
  assert (Hb : build_index products w = (Ok (built items), save_embeddings items w))
    by apply (build_index_successes embed Henc).
  split; [exact Hb |]. split; [reflexivity |]. split; [reflexivity |].
  split; [| split].
  - intros it. unfold items, successes. apply list_elem_of_omap.
  - intros p _ Hp ps1 ps2 ->. unfold items, successes.
    rewrite omap_app. simpl. rewrite Hp. reflexivity.
  - intros Hall.
    assert (Hnil : items = []).
    { unfold items, successes. clear Hb items.
      induction products as [|p ps IH]; [reflexivity |]. simpl.
      rewrite (Hall p) by apply list_elem_of_here.
      apply IH. intros q Hq. apply Hall. apply list_elem_of_further. exact Hq. }
    split; [exact Hnil |]. rewrite Hb, Hnil. reflexivity.
Qed.

Lemma build_index_items_witness :
  build_index (C:=clip_demo) big_catalog world0
  = (Ok (built (replicate 15 (vrec "p1" [1%Q]) ++ [vrec "p2" [1%Q]; vrec "p3" [1%Q]])),
     save_embeddings
       (replicate 15 (vrec "p1" [1%Q]) ++ [vrec "p2" [1%Q]; vrec "p3" [1%Q]]) world0).
Proof.
  apply (build_index_items (C:=clip_demo) demo_embed big_catalog world0).
  intros ts. reflexivity.
Defined.

(** C4, counterexample.  An entry that cannot be embedded is not skipped:
    the model embeds the images of [p1] and [p3] and raises on the image of
    [p2]; the three share the last batch, the last flush raises outside the
    [try], and the build ends with the exception and nothing saved, where
    the claim has an index of [p1] and [p3].  And when the model raises on
    every entry the build raises, where the claim has the empty index. *)
Lemma build_index_embedding_failure_aborts :
  (encode_image (Clip:=clip_poison) ["u1"] = Some [[1%Q]]
   /\ encode_image (Clip:=clip_poison) ["poison"] = None
   /\ encode_image (Clip:=clip_poison) ["u3"] = Some [[1%Q]])
  /\ build_index (C:=clip_poison) catalog_poison world0 = (Raise ModelError, world0)
  /\ build_index (C:=clip_poison) catalog_poison world0
     <> (Ok (built [vrec "p1" [1%Q]; vrec "p3" [1%Q]]),
         save_embeddings [vrec "p1" [1%Q]; vrec "p3" [1%Q]] world0)
  /\ build_index (C:=clip_down) catalog3 world0 = (Raise ModelError, world0)
  /\ build_index (C:=clip_down) catalog3 world0
     <> (Ok (built []), save_embeddings [] world0).
Proof.
  split; [repeat split |].
  split; [reflexivity |]. split; [discriminate |].
  split; [reflexivity | discriminate].
Qed.

(** C8.  Building twice from one catalog, the second time at any later
    clock and over the file the first build left, gives the same outcome;
    when the build succeeds both persisted indexes hold the same items in
    the same order, each under the time of its own build. *)
Theorem build_index_idempotent {C : Clip} (products : list product) (w : world) (t : Z) :
  let first := build_index products w in
  let second := build_index products (at_time t first.2) in
  second.1 = first.1
  /\ (forall idx, first.1 = Ok idx ->
        exists items,
          ix_items idx = Some items
          /\ load_embeddings first.2
             = Ok {| ix_model := Some MODEL_NAME; ix_created_at := Some (clock w);
                     ix_count := Some (Z.of_nat (length items));
                     ix_items := Some items |}
          /\ load_embeddings second.2
             = Ok {| ix_model := Some MODEL_NAME; ix_created_at := Some t;
                     ix_count := Some (Z.of_nat (length items));
                     ix_items := Some items |}).
Proof.
  unfold build_index.
  destruct (flush_batch (foldl build_step init_batch products)) as [st|e]; simpl.
  - split; [reflexivity |]. intros idx [= <-]. exists (bs_items st).
    repeat split.
  - split; [reflexivity |]. intros idx [=].
Qed.

Lemma build_index_idempotent_witness :
  exists items,
    ix_items (built (successes (C:=clip_demo) demo_embed big_catalog)) = Some items
    /\ load_embeddings (build_index (C:=clip_demo) big_catalog world0).2
       = Ok {| ix_model := Some MODEL_NAME; ix_created_at := Some (clock world0);
               ix_count := Some (Z.of_nat (length items)); ix_items := Some items |}
    /\ load_embeddings
         (build_index (C:=clip_demo) big_catalog
            (at_time 1700000999 (build_index (C:=clip_demo) big_catalog world0).2)).2
       = Ok {| ix_model := Some MODEL_NAME; ix_created_at := Some 1700000999%Z;
               ix_count := Some (Z.of_nat (length items)); ix_items := Some items |}.
Proof.
  apply (proj2 (build_index_idempotent (C:=clip_demo) big_catalog world0 1700000999)).
  reflexivity.
Defined.

(** ** ensure_index *)

Lemma flush_batch_total {C : Clip} (st : batch_state) :
  (forall ts, is_Some (encode_image ts)) -> exists st', flush_batch st = Ok st'.
Proof.
  intros Henc. unfold flush_batch. destruct (bs_imgs st) as [|t ts]; [eauto |].
  destruct (Henc (t :: ts)) as [feats ->]. simpl. eauto.
Qed.

Lemma build_index_model {C : Clip} (products : list product) (w : world)
    (idx : index) (w' : world) :
  build_index products w = (Ok idx, w') -> ix_model idx = Some MODEL_NAME.
Proof.
  unfold build_index.
  destruct (flush_batch (foldl build_step init_batch products)) as [st|e];
    intros [= <- _]; reflexivity.
Qed.

(** C9.  Whenever [ensure_index] returns an index, the model of that index
    is [MODEL_NAME]; when the loaded dict has another model, the outcome is
    that of a fresh build; and [ensure_index] does return an index whenever
    the two files load and the model encodes its batches. *)
Theorem ensure_index_model {C : Clip} (rebuild : bool) (w : world) :
  (forall idx w', ensure_index rebuild w = (Ok idx, w') ->
     ix_model idx = Some MODEL_NAME)
  /\ (forall products d,
        load_products w = Ok products -> load_embeddings w = Ok d ->
        ix_model d <> Some MODEL_NAME ->
        ensure_index rebuild w = build_index products w)
  /\ (forall products d,
        load_products w = Ok products -> load_embeddings w = Ok d ->
        (forall ts, is_Some (encode_image ts)) ->
        exists idx w', ensure_index rebuild w = (Ok idx, w')
                       /\ ix_model idx = Some MODEL_NAME).
Proof.
  assert (Hret : forall idx w', ensure_index rebuild w = (Ok idx, w') ->
                   ix_model idx = Some MODEL_NAME).
  { intros idx w'. unfold ensure_index.
    destruct (load_products w) as [products|e]; [| intros [=]].
    destruct (load_embeddings w) as [d|e]; [| intros [=]].
    destruct (needs_rebuild rebuild d products) eqn:Hn.
    - apply build_index_model.
    - intros [= <- _]. unfold needs_rebuild in Hn.
      apply orb_false_elim in Hn as [Hn _].
      apply orb_false_elim in Hn as [_ Hn].
      unfold model_differs in Hn. apply bool_decide_eq_false in Hn.
      destruct (decide (ix_model d = Some MODEL_NAME)) as [E|E]; [exact E | tauto]. }
  split; [exact Hret |]. split.
  - intros products d Hp Hd Hm. unfold ensure_index. rewrite Hp, Hd.
    assert (Hn : needs_rebuild rebuild d products = true).
    { apply needs_rebuild_true_model. exact Hm. }
    rewrite Hn. reflexivity.
  - intros products d Hp Hd Henc.
    assert (Hex : exists idx w', ensure_index rebuild w = (Ok idx, w')).
    { unfold ensure_index. rewrite Hp, Hd.
      destruct (needs_rebuild rebuild d products); [| eauto].
      unfold build_index.
      destruct (flush_batch_total (foldl build_step init_batch products) Henc)
        as [st ->]. eauto. }
    destruct Hex as (idx & w' & Hex). exists idx, w'. split; [exact Hex |].
    apply (Hret _ _ Hex).
Qed.

Lemma ensure_index_model_witness :
  ensure_index (C:=clip_demo) false world_model_A
  = build_index (C:=clip_demo) catalog3 world_model_A
  /\ exists idx w',
       ensure_index (C:=clip_demo) false world_model_A = (Ok idx, w')
       /\ ix_model idx = Some MODEL_NAME.
Proof.
  pose proof (ensure_index_model (C:=clip_demo) false world_model_A) as (_ & H2 & H3).
  split.
  - eapply H2; [reflexivity | reflexivity |]. simpl. discriminate.
  - eapply H3; [reflexivity | reflexivity |]. intros ts. simpl. eauto.
Defined.

(** ** The two implementations of [topk] meet the documentation *)

Section TopkBy.
Variable skip : Q -> Q -> bool.
Hypothesis skip_le : forall x y, skip x y = true -> (x <= y)%Q.
Hypothesis skip_ge : forall x y, skip x y = false -> (y <= x)%Q.

Lemma insert_desc_perm (x : Q * nat) (l : list (Q * nat)) :
  insert_desc skip x l ≡ₚ x :: l.
Proof.
  induction l as [|y l IH]; simpl; [reflexivity |].
  destruct (skip x.1 y.1); [| reflexivity].
  rewrite IH. apply Permutation_swap.
Qed.

Lemma sort_desc_perm (l : list (Q * nat)) : sort_desc skip l ≡ₚ l.
Proof.
  induction l as [|x l IH]; simpl; [reflexivity |].
  rewrite insert_desc_perm, IH. reflexivity.
Qed.

Lemma insert_desc_sorted (x : Q * nat) (l : list (Q * nat)) :
  StronglySorted before l -> StronglySorted before (insert_desc skip x l).
Proof.
  induction l as [|y l IH]; simpl; intros Hs.
  - constructor; [constructor | constructor].
  - apply StronglySorted_cons in Hs as [Hy Hl].
    destruct (skip x.1 y.1) eqn:Hxy.
    + apply StronglySorted_cons. split; [| apply IH; exact Hl].
      rewrite insert_desc_perm. constructor; [| exact Hy].
      apply skip_le. exact Hxy.
    + apply StronglySorted_cons. split.
      * constructor; [apply skip_ge; exact Hxy |].
        apply (Forall_impl _ _ _ Hy). intros z Hz. unfold before in *.
        apply Qle_trans with y.1; [exact Hz | apply skip_ge; exact Hxy].
      * apply StronglySorted_cons. split; assumption.
Qed.

Lemma sort_desc_sorted (l : list (Q * nat)) : StronglySorted before (sort_desc skip l).
Proof.
  induction l as [|x l IH]; simpl; [constructor |].
  apply insert_desc_sorted. exact IH.
Qed.

Lemma elem_of_enumerate (sims : list Q) (v : Q) (i : nat) :
  (v, i) ∈ zip sims (seq 0 (length sims)) <-> sims !! i = Some v.
Proof.
  rewrite elem_of_lookup_zip_with. split.
  - intros (j & x & y & [= -> ->] & Hx & Hy).
    apply lookup_seq in Hy as [-> _]. exact Hx.
  - intros Hi. exists i, v, i. split; [reflexivity |]. split; [exact Hi |].
    apply lookup_seq. split; [reflexivity |].
    apply lookup_lt_Some in Hi. exact Hi.
Qed.

Lemma topk_by_spec : TopkSpec {| topk := topk_by skip |}.
Proof.
  assert (Hlen : forall sims,
            length (sort_desc skip (zip sims (seq 0 (length sims)))) = length sims).
  { intros sims. rewrite sort_desc_perm, length_zip_with_l_eq; [reflexivity |].
    rewrite length_seq. reflexivity. }
  split; simpl; unfold topk_by.
  - intros sims k Hk. rewrite length_take_le; [reflexivity |].
    rewrite Hlen. exact Hk.
  - intros sims k v i _ Hin. apply elem_of_enumerate.
    rewrite <- (sort_desc_perm (zip sims (seq 0 (length sims)))).
    apply elem_of_take in Hin as (j & Hj & _).
    apply list_elem_of_lookup_2 in Hj. exact Hj.
  - intros sims k _.
    assert (Hsub : (take k (sort_desc skip (zip sims (seq 0 (length sims))))).*2
                   `sublist_of` (sort_desc skip (zip sims (seq 0 (length sims)))).*2)
      by apply fmap_sublist, sublist_take.
    refine (sublist_NoDup _ _ _ Hsub).
    rewrite sort_desc_perm, snd_zip by (rewrite length_seq; reflexivity).
    apply NoDup_seq.
  - intros sims k _.
    apply (StronglySorted_app_1_l _ _
             (drop k (sort_desc skip (zip sims (seq 0 (length sims)))))).
    rewrite take_drop. apply sort_desc_sorted.
  - intros sims k v i j u _ Hin Hj Hout.
    pose proof (sort_desc_sorted (zip sims (seq 0 (length sims)))) as Hs.
    rewrite <- (take_drop k) in Hs.
    apply (StronglySorted_app_1_elem_of _ _ _ (v, i) (u, j) Hs Hin).
    apply elem_of_enumerate in Hj.
    rewrite <- (sort_desc_perm (zip sims (seq 0 (length sims)))) in Hj.
    rewrite <- (take_drop k (sort_desc skip _)) in Hj.
    apply elem_of_app in Hj as [Hj | Hj]; [| exact Hj].
    exfalso. apply Hout. apply (list_elem_of_fmap_2 snd _ _ Hj).
Qed.

End TopkBy.

Lemma Qltb_lt (x y : Q) : Qltb x y = true <-> (x < y)%Q.
Proof.
  unfold Qltb. rewrite negb_true_iff, <- not_true_iff_false, Qle_bool_iff.
  split; [apply Qnot_le_lt | apply Qlt_not_le].
Qed.

Lemma Qltb_ge (x y : Q) : Qltb x y = false <-> (y <= x)%Q.
Proof. unfold Qltb. rewrite negb_false_iff. apply Qle_bool_iff. Qed.

Lemma topk_first_spec : TopkSpec topk_first.
Proof.
  apply topk_by_spec.
  - intros x y H. apply Qlt_le_weak, Qltb_lt. exact H.
  - intros x y H. apply Qltb_ge. exact H.
Qed.

Lemma topk_last_spec : TopkSpec topk_last.
Proof.
  apply topk_by_spec.
  - intros x y H. apply Qle_bool_iff. exact H.
  - intros x y H. apply Qlt_le_weak, Qnot_le_lt.
    rewrite <- Qle_bool_iff, H. discriminate.
Qed.

(** ** SimilaritySearch *)

Lemma StronglySorted_filter {A : Type} (R : relation A) (P : A -> Prop)
    `{!forall x, Decision (P x)} (l : list A) :
  StronglySorted R l -> StronglySorted R (filter P l).
Proof.
  induction 1 as [|x l Hs IH Hx]; [constructor |].
  rewrite filter_cons. destruct (decide (P x)); [| exact IH].
  constructor; [exact IH |].
  apply Forall_forall. intros y Hy. apply list_elem_of_filter in Hy as [_ Hy].
  rewrite Forall_forall in Hx. apply Hx, Hy.
Qed.

Lemma catalog_map_fold_Some (ps : list product) (m : gmap string product)
    (k : string) (p : product) :
  foldl (fun m p => <[p_id p := p]> m) m ps !! k = Some p ->
  (p ∈ ps /\ p_id p = k) \/ m !! k = Some p.
Proof.
  revert m. induction ps as [|a ps IH]; intros m; simpl; [auto |].
  intros H. apply IH in H as [[Hin Hk] | H].
  - left. split; [apply list_elem_of_further, Hin | exact Hk].
  - destruct (decide (p_id a = k)) as [E|E].
    + subst k. rewrite lookup_insert_eq in H. injection H as ->.
      left. split; [apply list_elem_of_here | reflexivity].
    + rewrite lookup_insert_ne in H by exact E. right. exact H.
Qed.

Lemma catalog_map_fold_is_Some (ps : list product) (m : gmap string product)
    (k : string) :
  is_Some (m !! k) \/ (exists p, p ∈ ps /\ p_id p = k) ->
  is_Some (foldl (fun m p => <[p_id p := p]> m) m ps !! k).
Proof.
  revert m. induction ps as [|a ps IH]; intros m; simpl.
  - intros [H | (p & Hin & _)]; [exact H |]. apply elem_of_nil in Hin as [].
  - intros H. apply IH.
    destruct (decide (p_id a = k)) as [E|E].
    + left. subst k. rewrite lookup_insert_eq. eauto.
    + rewrite lookup_insert_ne by exact E.
      destruct H as [H | (p & Hin & Hk)]; [left; exact H |].
      apply elem_of_cons in Hin as [-> | Hin]; [contradiction |].
      right. eauto.
Qed.

Lemma catalog_map_Some (products : list product) (k : string) (p : product) :
  catalog_map products !! k = Some p -> p ∈ products /\ p_id p = k.
Proof.
  intros H. apply catalog_map_fold_Some in H as [H | H]; [exact H |].
  rewrite lookup_empty in H. discriminate H.
Qed.

Lemma catalog_map_is_Some (products : list product) (k : string) :
  is_Some (catalog_map products !! k) <-> exists p, p ∈ products /\ p_id p = k.
Proof.
  split.
  - intros [p Hp]. exists p. apply catalog_map_Some, Hp.
  - intros H. apply catalog_map_fold_is_Some. right. exact H.
Qed.

Lemma elem_of_retained (products : list product) (items : list vector_record)
    (it : vector_record) :
  it ∈ retained (catalog_map products) items
  <-> it ∈ items /\ exists p, p ∈ products /\ p_id p = v_id it.
Proof.
  unfold retained. rewrite list_elem_of_filter, catalog_map_is_Some. tauto.
Qed.

Section CollectFacts.
Variable pmap : gmap string product.
Variable ids : list string.

Lemma collect_cons_skip (m score : Q) (i : nat) (rest : list (Q * nat)) :
  ~ (m <= score)%Q ->
  collect pmap ids m ((score, i) :: rest) = collect pmap ids m rest.
Proof.
  intros H. simpl. destruct (Qltb score m) eqn:E; [reflexivity |].
  apply Qltb_ge in E. contradiction.
Qed.

Lemma collect_cons_keep (m score : Q) (i : nat) (rest : list (Q * nat)) :
  (m <= score)%Q ->
  collect pmap ids m ((score, i) :: rest)
  = pid ← or_raise IndexError (ids !! i);
    p ← or_raise (KeyError pid) (pmap !! pid);
    results ← collect pmap ids m rest;
    Ok (mk_result p score :: results).
Proof.
  intros H. simpl. destruct (Qltb score m) eqn:E; [| reflexivity].
  apply Qltb_lt in E. apply Qlt_not_le in E. contradiction.
Qed.

(** What a returned list is made of: one result for each selected pair that
    passes the threshold, in the order of the selection. *)
Lemma collect_Ok (m : Q) (sel : list (Q * nat)) (rs : list search_result) :
  collect pmap ids m sel = Ok rs ->
  Forall2 (fun r s => exists pid p,
             ids !! s.2 = Some pid /\ pmap !! pid = Some p /\ r = mk_result p s.1)
    rs (filter (fun s => (m <= s.1)%Q) sel).
Proof.
  revert rs. induction sel as [|[score i] rest IH]; intros rs.
  - intros [= <-]. constructor.
  - rewrite filter_cons. simpl fst. destruct (decide (m <= score)%Q) as [Hm|Hm].
    + rewrite (collect_cons_keep _ _ _ _ Hm).
      destruct (ids !! i) as [pid|] eqn:Hi; [| discriminate]. simpl.
      destruct (pmap !! pid) as [p|] eqn:Hp; [| discriminate]. simpl.
      destruct (collect pmap ids m rest) as [rs'|e]; [| discriminate]. simpl.
      intros [= <-]. constructor; [| apply IH; reflexivity].
      exists pid, p. auto.
    + rewrite (collect_cons_skip _ _ _ _ Hm). apply IH.
Qed.

Lemma collect_scores (m : Q) (sel : list (Q * nat)) (rs : list search_result) :
  collect pmap ids m sel = Ok rs ->
  r_score <$> rs = filter (fun s => (m <= s)%Q) sel.*1.
Proof.
  revert rs. induction sel as [|[score i] rest IH]; intros rs.
  - intros [= <-]. reflexivity.
  - rewrite fmap_cons, filter_cons. simpl fst.
    destruct (decide (m <= score)%Q) as [Hm|Hm].
    + rewrite (collect_cons_keep _ _ _ _ Hm).
      destruct (ids !! i) as [pid|]; [| discriminate]. simpl.
      destruct (pmap !! pid) as [p|]; [| discriminate]. simpl.
      destruct (collect pmap ids m rest) as [rs'|e]; [| discriminate]. simpl.
      intros [= <-]. rewrite fmap_cons, (IH rs' eq_refl). reflexivity.
    + rewrite (collect_cons_skip _ _ _ _ Hm). apply IH.
Qed.

Lemma collect_total (m : Q) (sel : list (Q * nat)) :
  (forall s, s ∈ sel -> exists pid, ids !! s.2 = Some pid /\ is_Some (pmap !! pid)) ->
  exists rs, collect pmap ids m sel = Ok rs.
Proof.
  induction sel as [|[score i] rest IH]; intros Hsel; [simpl; eauto |].
  destruct IH as [rs Hrs].
  { intros s Hs. apply Hsel, list_elem_of_further, Hs. }
  destruct (Hsel (score, i)) as (pid & Hi & [p Hp]); [apply list_elem_of_here |].
  simpl in Hi. simpl. destruct (Qltb score m); [eauto |].
  rewrite Hi. simpl. rewrite Hp. simpl. rewrite Hrs. simpl. eauto.
Qed.

Lemma collect_mono (m1 m2 : Q) (sel : list (Q * nat)) (rs1 : list search_result) :
  (m1 <= m2)%Q ->
  collect pmap ids m1 sel = Ok rs1 ->
  exists rs2, collect pmap ids m2 sel = Ok rs2 /\ rs2 `sublist_of` rs1.
Proof.
  intros Hm. revert rs1. induction sel as [|[score i] rest IH]; intros rs1.
  - intros [= <-]. exists []. split; [reflexivity | constructor].
  - destruct (decide (m1 <= score)%Q) as [H1|H1].
    + intros Hrs. rewrite (collect_cons_keep _ _ _ _ H1) in Hrs.
      destruct (ids !! i) as [pid|] eqn:Hi; [| discriminate Hrs]. simpl in Hrs.
      destruct (pmap !! pid) as [p|] eqn:Hp; [| discriminate Hrs]. simpl in Hrs.
      destruct (collect pmap ids m1 rest) as [rs'|e]; [| discriminate Hrs].
      simpl in Hrs. injection Hrs as <-.
      destruct (IH rs' eq_refl) as (rs2 & H2 & Hsub).
      destruct (decide (m2 <= score)%Q) as [H2'|H2'].
      * exists (mk_result p score :: rs2). split; [| apply sublist_skip, Hsub].
        rewrite (collect_cons_keep _ _ _ _ H2'), Hi. simpl. rewrite Hp. simpl.
        rewrite H2. reflexivity.
      * exists rs2. split; [| apply sublist_cons, Hsub].
        rewrite (collect_cons_skip _ _ _ _ H2'). exact H2.
    + rewrite (collect_cons_skip _ _ _ _ H1). intros Hrs.
      destruct (IH rs1 Hrs) as (rs2 & H2 & Hsub).
      exists rs2. split; [| exact Hsub].
      rewrite collect_cons_skip; [exact H2 |].
      intros H2'. apply H1. apply Qle_trans with m2; assumption.
Qed.

Lemma collect_never_empty_index (m : Q) (sel : list (Q * nat)) :
  collect pmap ids m sel <> Raise EmptyEmbeddingsIndex.
Proof.
  induction sel as [|[score i] rest IH]; simpl; [discriminate |].
  destruct (Qltb score m); [exact IH |].
  destruct (ids !! i) as [pid|]; [| discriminate]. simpl.
  destruct (pmap !! pid) as [p|]; [| discriminate]. simpl.
  destruct (collect pmap ids m rest) as [rs|e]; simpl; [discriminate |].
  intros [= ->]. apply IH. reflexivity.
Qed.

End CollectFacts.

Section QueryFacts.
Context {T : Torch}.

Lemma query_unfold (rq : result (list Q)) (items : list vector_record)
    (products : list product) (top_k : Z) (m : Q) :
  query rq items products top_k m
  = match retained (catalog_map products) items with
    | [] => Raise EmptyEmbeddingsIndex
    | it :: _ =>
        if negb (rectangular (v_embedding <$> retained (catalog_map products) items))
        then Raise ShapeError else
        qf ← rq;
        if negb (Nat.eqb (length qf) (length (v_embedding it))) then Raise ShapeError else
        if (Z.min top_k (Z.of_nat (matched items products)) <? 0)%Z
        then Raise TopkRangeError else
        results ← collect (catalog_map products)
                    (v_id <$> retained (catalog_map products) items) m
                    (topk (scores qf items products) (selected top_k items products));
        Ok {| out_count := Z.of_nat (length results); out_results := results |}
    end.
Proof.
  unfold query, scores, selected, matched. cbv zeta.
  destruct (retained (catalog_map products) items) as [|it kept] eqn:E;
    [reflexivity |].
  destruct rq as [q|e]; [| reflexivity].
  unfold mbind, result_bind. rewrite !length_fmap. reflexivity.
Qed.

(** [query] is its checks followed by its loop. *)
Lemma query_split (rq : result (list Q)) (items : list vector_record)
    (products : list product) (top_k : Z) (m : Q) :
  query rq items products top_k m
  = qf ← query_guard rq items products top_k;
    results ← collect (catalog_map products)
                (v_id <$> retained (catalog_map products) items) m
                (topk (scores qf items products) (selected top_k items products));
    Ok {| out_count := Z.of_nat (length results); out_results := results |}.
Proof.
  rewrite query_unfold. unfold query_guard.
  destruct (retained (catalog_map products) items) as [|it kept] eqn:E;
    [reflexivity |].
  destruct (negb (rectangular (v_embedding <$> it :: kept))); [reflexivity |].
  destruct rq as [q|e]; [| reflexivity]. unfold mbind, result_bind.
  destruct (negb (Nat.eqb (length q) (length (v_embedding it)))); [reflexivity |].
  destruct (Z.min top_k (Z.of_nat (matched items products)) <? 0)%Z; reflexivity.
Qed.

Lemma length_scores (q : list Q) (items : list vector_record) (products : list product) :
  length (scores q items products) = matched items products.
Proof. unfold scores, matched. rewrite !length_fmap. reflexivity. Qed.

Lemma selected_le (q : list Q) (items : list vector_record) (products : list product)
    (top_k : Z) :
  selected top_k items products <= length (scores q items products).
Proof. rewrite length_scores. unfold selected. lia. Qed.

(** What [query] returns when it returns. *)
Lemma query_Ok_inv (rq : result (list Q)) (items : list vector_record)
    (products : list product) (top_k : Z) (m : Q) (out : search_output) :
  query rq items products top_k m = Ok out ->
  exists q rs,
    rq = Ok q
    /\ retained (catalog_map products) items <> []
    /\ (0 <= top_k)%Z
    /\ collect (catalog_map products)
         (v_id <$> retained (catalog_map products) items) m
         (topk (scores q items products) (selected top_k items products)) = Ok rs
    /\ out = {| out_count := Z.of_nat (length rs); out_results := rs |}.
Proof.
  rewrite query_unfold.
  destruct (retained (catalog_map products) items) as [|it kept] eqn:E;
    [discriminate |].
  destruct (negb (rectangular (v_embedding <$> it :: kept))); [discriminate |].
  destruct rq as [q|e]; [| discriminate]. unfold mbind, result_bind.
  destruct (negb (Nat.eqb (length q) (length (v_embedding it)))); [discriminate |].
  destruct (Z.ltb_spec (Z.min top_k (Z.of_nat (matched items products))) 0)
    as [Hk|Hk]; [discriminate |].
  destruct (collect _ _ _ _) as [rs|e] eqn:Hc; [| discriminate].
  intros [= <-]. exists q, rs.
  split; [reflexivity |]. split; [discriminate |]. split; [lia |].
  split; [exact Hc | reflexivity].
Qed.

Context `{!TopkSpec T}.

(** With a [topk] that meets its documentation the loop of [search] finds
    every id and every product it looks up. *)
Lemma collect_topk_total (q : list Q) (items : list vector_record)
    (products : list product) (top_k : Z) (m : Q) :
  exists rs,
    collect (catalog_map products)
      (v_id <$> retained (catalog_map products) items) m
      (topk (scores q items products) (selected top_k items products)) = Ok rs.
Proof.
  apply collect_total. intros [v i] Hs. simpl.
  apply (topk_lookup _ _ _ _ (selected_le q items products top_k)) in Hs.
  apply lookup_lt_Some in Hs. rewrite length_scores in Hs. unfold matched in Hs.
  apply lookup_lt_is_Some_2 in Hs as [it Hit].
  exists (v_id it). rewrite list_lookup_fmap, Hit. split; [reflexivity |].
  apply list_elem_of_lookup_2 in Hit. unfold retained in Hit.
  apply list_elem_of_filter in Hit as [Hit _]. exact Hit.
Qed.

Lemma rectangular_same_length (n : nat) (rows : list (list Q)) :
  Forall (fun r => length r = n) rows -> rectangular rows = true.
Proof.
  destruct rows as [|r rs]; [reflexivity |]. intros H.
  apply Forall_cons in H as [Hr Hrs]. simpl.
  apply forallb_forall. intros r' Hin. apply Nat.eqb_eq.
  rewrite Forall_forall in Hrs. rewrite Hr. apply Hrs.
  apply list_elem_of_In. exact Hin.
Qed.

(** [query] returns a result when some record survives the join, the
    embeddings have the dimension of the query, and [top_k] is not negative. *)
Lemma query_returns (q : list Q) (items : list vector_record)
    (products : list product) (top_k : Z) (m : Q) :
  retained (catalog_map products) items <> [] ->
  Forall (fun it => length (v_embedding it) = length q)
    (retained (catalog_map products) items) ->
  (0 <= top_k)%Z ->
  exists out, query (Ok q) items products top_k m = Ok out.
Proof.
  intros Hne Hdim Hk. rewrite query_unfold.
  destruct (collect_topk_total q items products top_k m) as [rs Hrs].
  rewrite (rectangular_same_length (length q))
    by (apply Forall_fmap; exact Hdim).
  destruct (retained (catalog_map products) items) as [|it kept] eqn:E;
    [contradiction |].
  apply Forall_cons in Hdim as [Hit _].
  unfold mbind, result_bind. rewrite Hit, Nat.eqb_refl. cbn [negb].
  destruct (Z.ltb_spec (Z.min top_k (Z.of_nat (matched items products))) 0)
    as [Hlt|_]; [lia |].
  rewrite Hrs. eauto.
Qed.

(** An exception of [query] does not depend on the threshold. *)
Lemma query_Raise_any_threshold (rq : result (list Q)) (items : list vector_record)
    (products : list product) (top_k : Z) (m1 m2 : Q) (e : exn) :
  query rq items products top_k m1 = Raise e ->
  query rq items products top_k m2 = Raise e.
Proof.
  rewrite !query_unfold.
  destruct (retained (catalog_map products) items) as [|it kept] eqn:E; [auto |].
  destruct (negb (rectangular (v_embedding <$> it :: kept))); [auto |].
  destruct rq as [q|e']; [| auto]. unfold mbind, result_bind.
  destruct (negb (Nat.eqb (length q) (length (v_embedding it)))); [auto |].
  destruct (Z.min top_k (Z.of_nat (matched items products)) <? 0)%Z; [auto |].
  rewrite <- E.
  destruct (collect_topk_total q items products top_k m1) as [rs1 ->].
  discriminate.
Qed.

Lemma filter_Forall_id {A : Type} (P : A -> Prop) `{!forall x, Decision (P x)}
    (l : list A) :
  Forall P l -> filter P l = l.
Proof.
  induction 1 as [|x l Hx _ IH]; [reflexivity |].
  rewrite filter_cons_True by exact Hx. rewrite IH. reflexivity.
Qed.

Lemma filter_Forall_nil {A : Type} (P : A -> Prop) `{!forall x, Decision (P x)}
    (l : list A) :
  Forall (fun x => ~ P x) l -> filter P l = [].
Proof.
  induction 1 as [|x l Hx _ IH]; [reflexivity |].
  rewrite filter_cons_False by exact Hx. exact IH.
Qed.

(** The values that [topk] selects are scores of retained records. *)
Lemma topk_values (q : list Q) (items : list vector_record)
    (products : list product) (top_k : Z) (P : Q -> Prop) :
  Forall P (scores q items products) ->
  Forall P (topk (scores q items products) (selected top_k items products)).*1.
Proof.
  intros H. apply Forall_fmap, Forall_forall. intros [v i] Hs. simpl.
  apply (topk_lookup _ _ _ _ (selected_le q items products top_k)) in Hs.
  rewrite Forall_forall in H. apply H. apply list_elem_of_lookup_2 in Hs. exact Hs.
Qed.

Lemma topk_values_descending (q : list Q) (items : list vector_record)
    (products : list product) (top_k : Z) :
  descending (topk (scores q items products) (selected top_k items products)).*1.
Proof.
  unfold descending.
  apply (StronglySorted_fmap fst before).
  - auto.
  - apply topk_sorted, selected_le.
Qed.

Lemma Z_selected (items : list vector_record) (products : list product) (top_k : Z) :
  (0 <= top_k)%Z ->
  Z.of_nat (selected top_k items products)
  = Z.min top_k (Z.of_nat (matched items products)).
Proof. intros H. unfold selected. lia. Qed.

End QueryFacts.

Lemma collect_results (pmap : gmap string product) (ids : list string) (m : Q)
    (sel : list (Q * nat)) (rs : list search_result) (r : search_result) :
  collect pmap ids m sel = Ok rs -> r ∈ rs ->
  exists s pid p,
    s ∈ sel /\ (m <= s.1)%Q /\ ids !! s.2 = Some pid
    /\ pmap !! pid = Some p /\ r = mk_result p s.1.
Proof.
  intros Hc Hr. apply collect_Ok in Hc.
  apply list_elem_of_lookup_1 in Hr as [i Hi].
  destruct (Forall2_lookup_l _ _ _ _ _ Hc Hi) as (s & Hs & pid & p & H1 & H2 & H3).
  apply list_elem_of_lookup_2, list_elem_of_filter in Hs as [Hm Hs].
  exists s, pid, p. auto.
Qed.

Lemma Forall2_elem_of_r {A R : Type} (P : A -> R -> Prop) (l : list A) (k : list R) :
  Forall2 P l k -> Forall2 (fun x y => P x y /\ y ∈ k) l k.
Proof.
  induction 1 as [|x y l k Hxy _ IH]; constructor.
  - split; [exact Hxy | apply list_elem_of_here].
  - apply (Forall2_impl _ _ _ _ IH). intros a b [Hab Hb].
    split; [exact Hab | apply list_elem_of_further, Hb].
Qed.

(** The results of [query] are, pair by pair and in the order of the
    selection, the results of the selected pairs that reach the threshold. *)
Lemma query_results_of_selected {T : Torch} `{!TopkSpec T} (q : list Q)
    (items : list vector_record) (products : list product) (top_k : Z) (m : Q)
    (out : search_output) :
  query (Ok q) items products top_k m = Ok out ->
  Forall2 (result_of q items products) (out_results out)
    (filter (fun s => (m <= s.1)%Q)
       (topk (scores q items products) (selected top_k items products))).
Proof.
  intros Hout.
  apply query_Ok_inv in Hout as (q' & rs & [= <-] & _ & _ & Hc & ->). simpl.
  apply collect_Ok, Forall2_elem_of_r in Hc.
  apply (Forall2_impl _ _ _ _ Hc).
  intros r [v i] [(pid & p & Hid & Hp & ->) Hin]. simpl in Hid, Hp.
  apply list_elem_of_filter in Hin as [_ Hin].
  apply (topk_lookup _ _ _ _ (selected_le q items products top_k)) in Hin.
  unfold scores in Hin. rewrite !list_lookup_fmap in Hin.
  rewrite list_lookup_fmap in Hid.
  destruct (retained (catalog_map products) items !! i) as [it|] eqn:Hit;
    [| discriminate Hid].
  injection Hid as <-. injection Hin as <-.
  exists it, p. simpl. auto.
Qed.

(** C1, as amended.  At [min_score = 0] and [top_k >= 1], with a [topk]
    that meets its documentation: the results are, one for one and in the
    order [torch.topk] gives, the records that top-k selected and whose
    score is not negative, each joined with the catalog product of its id
    and carrying its similarity to the query; their scores are in descending
    order, equal neighbours allowed; so the length is at most
    [min(top_k, matched records)], and equal to it when no retained record
    scores below 0; and [query] does return when a record survives the join
    and the dimensions agree.  The order among equal scores is the one
    [torch.topk] gives. *)
Theorem query_default_ranked {T : Torch} `{!TopkSpec T} (q : list Q)
    (items : list vector_record) (products : list product) (top_k : Z) :
  (1 <= top_k)%Z ->
  (retained (catalog_map products) items <> [] ->
   Forall (fun it => length (v_embedding it) = length q)
     (retained (catalog_map products) items) ->
   exists out, query (Ok q) items products top_k 0 = Ok out)
  /\ (forall out, query (Ok q) items products top_k 0 = Ok out ->
        descending (r_score <$> out_results out)
        /\ out_count out = Z.of_nat (length (out_results out))
        /\ r_score <$> out_results out
           = filter (fun s => (0 <= s)%Q)
               (topk (scores q items products) (selected top_k items products)).*1
        /\ (Z.of_nat (length (out_results out))
            <= Z.min top_k (Z.of_nat (matched items products)))%Z
        /\ (Forall (fun s => (0 <= s)%Q) (scores q items products) ->
            Z.of_nat (length (out_results out))
            = Z.min top_k (Z.of_nat (matched items products)))
        /\ Forall2 (result_of q items products) (out_results out)
             (filter (fun s => (0 <= s.1)%Q)
                (topk (scores q items products) (selected top_k items products)))).
Proof.
  intros Hk. split.
  - intros Hne Hdim. apply query_returns; [exact Hne | exact Hdim | lia].
  - intros out Hout.
    pose proof (query_results_of_selected _ _ _ _ _ _ Hout) as Hrec.
    apply query_Ok_inv in Hout as (q' & rs & [= <-] & _ & _ & Hc & ->).
    simpl in Hrec |- *.
    pose proof (collect_scores _ _ _ _ _ Hc) as Hsc.
    assert (Hlen : length rs
                   = length (filter (fun s => (0 <= s)%Q)
                       (topk (scores q items products)
                          (selected top_k items products)).*1))
      by (rewrite <- Hsc, length_fmap; reflexivity).
    assert (Hsel : Z.of_nat (length (topk (scores q items products)
                                       (selected top_k items products)).*1)
                   = Z.min top_k (Z.of_nat (matched items products))).
    { rewrite length_fmap, topk_length by apply selected_le.
      apply Z_selected. lia. }
    split; [| split; [reflexivity | split; [exact Hsc | split; [| split]]]].
    + rewrite Hsc. apply StronglySorted_filter, topk_values_descending.
    + rewrite Hlen, <- Hsel. apply inj_le, length_filter.
    + intros Hpos. rewrite Hlen, <- Hsel. f_equal. f_equal.
      apply filter_Forall_id, topk_values, Hpos.
    + exact Hrec.
Qed.

Lemma query_default_ranked_witness :
  exists out, query (T:=topk_first) (Ok [1%Q]) items_tie_neg catalog3 3 0 = Ok out.
Proof.
  apply (proj1 (query_default_ranked (T:=topk_first) (TopkSpec0:=topk_first_spec)
                  [1%Q] items_tie_neg catalog3 3 ltac:(lia))).
  - vm_compute. discriminate.
  - vm_compute. repeat constructor.
Defined.

(** C1, counterexample.  Three matched records, [top_k = 3], [min_score = 0]:
    the two returned scores are equal, so not strictly descending, and the
    record scoring -1 is dropped, so the length is 2 and not [min(3, 3)]. *)
Lemma query_default_not_exact :
  matched items_tie_neg catalog3 = 3
  /\ exists out,
       query (T:=topk_first) (Ok [1%Q]) items_tie_neg catalog3 3 0 = Ok out
       /\ ~ strictly_descending (r_score <$> out_results out)
       /\ Z.of_nat (length (out_results out))
          <> Z.min 3 (Z.of_nat (matched items_tie_neg catalog3)).
Proof.
  split; [vm_compute; reflexivity |].
  eexists. split; [vm_compute; reflexivity |]. split.
  - intros H. apply StronglySorted_cons in H as [H _].
    apply Forall_cons in H as [H _]. revert H. apply Qlt_irrefl.
  - vm_compute. discriminate.
Qed.

(** The order among equal scores is the one of [topk]: two implementations
    that meet the documentation rank a tie in opposite orders. *)
Lemma tie_order_follows_topk :
  result_ids (query (T:=topk_first) (Ok [1%Q]) items_p1_p2 catalog3 2 0)
  = Some ["p1"; "p2"]
  /\ result_ids (query (T:=topk_last) (Ok [1%Q]) items_p1_p2 catalog3 2 0)
     = Some ["p2"; "p1"].
Proof. split; vm_compute; reflexivity. Qed.

(** Whatever [topk] is used, two records that tie give two equal scores, and
    a list with two equal scores is not strictly descending. *)
Lemma tie_never_strict {T : Torch} `{!TopkSpec T} (out : search_output) :
  query (Ok [1%Q]) items_p1_p2 catalog3 2 0 = Ok out ->
  r_score <$> out_results out = [1%Q; 1%Q]
  /\ ~ strictly_descending (r_score <$> out_results out).
Proof.
  intros Hout.
  apply query_Ok_inv in Hout as (q & rs & [= <-] & _ & _ & Hc & ->). simpl.
  apply collect_scores in Hc.
  pose proof (topk_values [1%Q] items_p1_p2 catalog3 2 (fun s => s = 1%Q)) as Hv.
  pose proof (topk_length (scores [1%Q] items_p1_p2 catalog3)
                (selected 2 items_p1_p2 catalog3)
                (selected_le [1%Q] items_p1_p2 catalog3 2)) as Hl.
  rewrite <- (length_fmap fst) in Hl.
  destruct ((topk (scores [1%Q] items_p1_p2 catalog3)
               (selected 2 items_p1_p2 catalog3)).*1) as [|a [|b [|c l]]];
    try discriminate Hl.
  assert (Hab : Forall (fun s => s = 1%Q) [a; b])
    by (apply Hv; vm_compute; repeat constructor).
  apply Forall_cons in Hab as [-> Hb]. apply Forall_cons in Hb as [-> _].
  assert (E : r_score <$> rs = [1%Q; 1%Q]).
  { rewrite Hc. rewrite filter_Forall_id; [reflexivity |].
    repeat constructor; discriminate. }
  split; [exact E |]. rewrite E. intros H.
  apply StronglySorted_cons in H as [H _].
  apply Forall_cons in H as [H _]. revert H. apply Qlt_irrefl.
Qed.

(** C3.  The threshold works on what top-k selected: the scores of the
    results are the selected scores that reach [min_score], so every result
    reaches it and there are at most [top_k] results; under a higher
    threshold [query] returns a sublist of what it returns under a lower
    one, hence no more results; and it raises under one threshold exactly
    when it raises under the other. *)
Theorem query_threshold {T : Torch} `{!TopkSpec T} (q : list Q)
    (items : list vector_record) (products : list product) (top_k : Z)
    (m1 m2 : Q) :
  (1 <= top_k)%Z -> (m1 <= m2)%Q ->
  (forall out, query (Ok q) items products top_k m2 = Ok out ->
     r_score <$> out_results out
     = filter (fun s => (m2 <= s)%Q)
         (topk (scores q items products) (selected top_k items products)).*1
     /\ (forall r, r ∈ out_results out -> (m2 <= r_score r)%Q)
     /\ (Z.of_nat (length (out_results out)) <= top_k)%Z)
  /\ (forall out1, query (Ok q) items products top_k m1 = Ok out1 ->
        exists out2,
          query (Ok q) items products top_k m2 = Ok out2
          /\ out_results out2 `sublist_of` out_results out1
          /\ length (out_results out2) <= length (out_results out1))
  /\ (forall e, query (Ok q) items products top_k m1 = Raise e <->
                query (Ok q) items products top_k m2 = Raise e).
Proof.
  intros Hk Hm. split; [| split].
  - intros out Hout.
    apply query_Ok_inv in Hout as (q' & rs & [= <-] & _ & _ & Hc & ->). simpl.
    pose proof (collect_scores _ _ _ _ _ Hc) as Hsc.
    split; [exact Hsc | split].
    + intros r Hr.
      destruct (collect_results _ _ _ _ _ _ Hc Hr) as (s & pid & p & _ & Hs & _ & _ & ->).
      exact Hs.
    + rewrite <- (length_fmap r_score), Hsc.
      etransitivity; [apply inj_le, length_filter |].
      rewrite length_fmap, topk_length by apply selected_le.
      rewrite Z_selected by lia. lia.
  - intros out1. rewrite !query_split.
    destruct (query_guard (Ok q) items products top_k) as [qf|e]; [| discriminate].
    unfold mbind, result_bind.
    destruct (collect _ _ m1 _) as [rs1|e] eqn:Hc; [| discriminate].
    intros [= <-]. simpl.
    destruct (collect_mono _ _ _ _ _ _ Hm Hc) as (rs2 & -> & Hsub).
    eexists. split; [reflexivity |]. simpl.
    split; [exact Hsub | apply sublist_length, Hsub].
  - intros e. split; apply query_Raise_any_threshold.
Qed.

Lemma query_threshold_witness :
  exists out2,
    query (T:=topk_first) (Ok [1%Q]) items_tie_neg catalog3 3 (9 # 10) = Ok out2
    /\ out_results out2
       `sublist_of` [mk_result prod1 1; mk_result prod2 1; mk_result prod3 (-1)]
    /\ length (out_results out2) <= 3.
Proof.
  apply (proj1 (proj2 (query_threshold (T:=topk_first) (TopkSpec0:=topk_first_spec)
           [1%Q] items_tie_neg catalog3 3 (-1) (9 # 10) ltac:(lia) ltac:(discriminate)))
         {| out_count := 3;
            out_results := [mk_result prod1 1; mk_result prod2 1; mk_result prod3 (-1)] |}).
  vm_compute. reflexivity.
Defined.

(** C10.  At the default threshold 0 the scores of the results are the
    selected scores that are not negative, so no result has a negative
    score and a selected record that scores below 0 is left out; when every
    retained record scores below 0 the answer is empty; and for one record
    opposite to the query the answer has 0 results where
    [min(top_k, matched records)] is 1. *)
Theorem query_default_drops_negative {T : Torch} `{!TopkSpec T} :
  (forall q items products top_k out,
     query (Ok q) items products top_k default_min_score = Ok out ->
     r_score <$> out_results out
     = filter (fun s => (0 <= s)%Q)
         (topk (scores q items products) (selected top_k items products)).*1
     /\ (forall r, r ∈ out_results out -> (0 <= r_score r)%Q)
     /\ (Forall (fun s => (s < 0)%Q) (scores q items products) ->
         out_results out = []))
  /\ query (Ok [1%Q]) items_neg [prod1] default_top_k default_min_score
     = Ok {| out_count := 0; out_results := [] |}
  /\ (0 < Z.min default_top_k (Z.of_nat (matched items_neg [prod1])))%Z.
Proof.
  assert (Hgen : forall q items products top_k out,
    query (Ok q) items products top_k default_min_score = Ok out ->
    r_score <$> out_results out
    = filter (fun s => (0 <= s)%Q)
        (topk (scores q items products) (selected top_k items products)).*1
    /\ (forall r, r ∈ out_results out -> (0 <= r_score r)%Q)
    /\ (Forall (fun s => (s < 0)%Q) (scores q items products) ->
        out_results out = [])).
  { intros q items products top_k out Hout.
    apply query_Ok_inv in Hout as (q' & rs & [= <-] & _ & _ & Hc & ->). simpl.
    pose proof (collect_scores _ _ _ _ _ Hc) as Hsc.
    split; [exact Hsc | split].
    - intros r Hr.
      destruct (collect_results _ _ _ _ _ _ Hc Hr)
        as (s & pid & p & _ & Hs & _ & _ & ->).
      exact Hs.
    - intros Hneg. apply fmap_nil_inv with r_score. rewrite Hsc.
      apply filter_Forall_nil.
      apply (topk_values q items products top_k (fun s => ~ (0 <= s)%Q)).
      apply (Forall_impl _ _ _ Hneg). intros s. apply Qlt_not_le. }
  split; [exact Hgen | split].
  - destruct (query_returns [1%Q] items_neg [prod1] default_top_k default_min_score)
      as [out Hout].
    + vm_compute. discriminate.
    + vm_compute. repeat constructor.
    + vm_compute. discriminate.
    + rewrite Hout. destruct (Hgen _ _ _ _ _ Hout) as (_ & _ & Hnil).
      pose proof Hout as Hinv.
      apply query_Ok_inv in Hinv as (q' & rs & _ & _ & _ & _ & ->).
      simpl in Hnil. rewrite Hnil; [reflexivity |].
      vm_compute. repeat constructor.
  - vm_compute. reflexivity.
Qed.

Lemma query_default_drops_negative_witness :
  query (T:=topk_first) (Ok [1%Q]) items_neg [prod1] default_top_k default_min_score
  = Ok {| out_count := 0; out_results := [] |}.
Proof.
  apply (proj1 (proj2 (query_default_drops_negative
                         (T:=topk_first) (TopkSpec0:=topk_first_spec)))).
Defined.

Lemma encode_query_never_empty_index {C : Clip} (query_path : string) :
  encode_query query_path <> Raise EmptyEmbeddingsIndex.
Proof.
  unfold encode_query.
  destruct (load_image query_path) as [img|]; [| discriminate]. simpl.
  destruct (preprocess img) as [t|]; [| discriminate]. simpl.
  destruct (encode_image [t]) as [[|qf [|]]|]; discriminate.
Qed.

Lemma query_empty_index_iff {T : Torch} (rq : result (list Q))
    (items : list vector_record) (products : list product) (top_k : Z) (m : Q) :
  rq <> Raise EmptyEmbeddingsIndex ->
  query rq items products top_k m = Raise EmptyEmbeddingsIndex
  <-> retained (catalog_map products) items = [].
Proof.
  intros Hrq. rewrite query_split. unfold query_guard. split.
  - destruct (retained (catalog_map products) items) as [|it kept]; [reflexivity |].
    destruct (negb (rectangular (v_embedding <$> it :: kept))); [discriminate |].
    destruct rq as [q|e]; unfold mbind, result_bind.
    + destruct (negb (Nat.eqb (length q) (length (v_embedding it)))); [discriminate |].
      destruct (Z.min top_k (Z.of_nat (matched items products)) <? 0)%Z;
        [discriminate |].
      destruct (collect _ _ _ _) as [rs|e] eqn:Hc; [discriminate |].
      intros [= ->]. apply collect_never_empty_index in Hc as [].
    + intros [= ->]. contradiction.
  - intros ->. reflexivity.
Qed.

(** C5.  Once the catalog and the index are there, [search] is [query] on
    the records of the index whose id is an id of the catalog, and on no
    other; it raises [EmptyEmbeddingsIndex] exactly when no record is
    retained; every result carries the id of a catalog product and of a
    retained record; and when the persisted index is reused the world,
    stale records included, is left as it was. *)
Theorem search_catalog_join {C : Clip} {T : Torch} (query_path : string)
    (top_k : Z) (min_score : Q) (w w1 : world) (products : list product)
    (idx : index) (items : list vector_record) :
  load_products w = Ok products ->
  ensure_index false w = (Ok idx, w1) ->
  ix_items idx = Some items ->
  search query_path top_k min_score w
  = (query (encode_query query_path) items products top_k min_score, w1)
  /\ (forall it, it ∈ retained (catalog_map products) items
        <-> it ∈ items /\ exists p, p ∈ products /\ p_id p = v_id it)
  /\ ((search query_path top_k min_score w).1 = Raise EmptyEmbeddingsIndex
      <-> retained (catalog_map products) items = [])
  /\ (forall out, (search query_path top_k min_score w).1 = Ok out ->
        forall r, r ∈ out_results out ->
          (exists p, p ∈ products /\ p_id p = r_id r)
          /\ (exists it, it ∈ retained (catalog_map products) items
                         /\ v_id it = r_id r))
  /\ (forall d, load_embeddings w = Ok d ->
        needs_rebuild false d products = false ->
        idx = d /\ (search query_path top_k min_score w).2 = w).
Proof.
  intros Hp He Hi.
  assert (Hs : search query_path top_k min_score w
               = (query (encode_query query_path) items products top_k min_score, w1)).
  { unfold search. rewrite Hp, He, Hi. reflexivity. }
  split; [exact Hs |]. rewrite Hs. simpl.
  split; [intros it; apply elem_of_retained |].
  split; [apply query_empty_index_iff, encode_query_never_empty_index |].
  split.
  - intros out Hout r Hr.
    apply query_Ok_inv in Hout as (q & rs & _ & _ & _ & Hc & ->). simpl in Hr.
    destruct (collect_results _ _ _ _ _ _ Hc Hr)
      as (s & pid & p & _ & _ & Hid & Hpm & ->).
    apply catalog_map_Some in Hpm as [Hin Hpid]. simpl.
    split; [eauto |].
    rewrite list_lookup_fmap in Hid.
    destruct (retained (catalog_map products) items !! s.2) as [it|] eqn:Hit;
      [| discriminate Hid].
    injection Hid as <-. exists it.
    split; [apply list_elem_of_lookup_2 in Hit; exact Hit | congruence].
  - intros d Hd Hn. unfold ensure_index in He. rewrite Hp, Hd, Hn in He.
    injection He as <- <-. auto.
Qed.

Lemma search_catalog_join_witness :
  result_ids (search (C:=clip_demo) (T:=topk_first) "q" default_top_k
                default_min_score world_stale_record).1
  = Some ["p1"; "p2"]
  /\ (search (C:=clip_demo) (T:=topk_first) "q" default_top_k
        default_min_score world_stale_record).2 = world_stale_record.
Proof.
  destruct (search_catalog_join (C:=clip_demo) (T:=topk_first) "q" default_top_k
              default_min_score world_stale_record world_stale_record
              [prod1; prod2]
              (payload [vrec "p1" [1%Q]; vrec "p2" [1%Q]; vrec "p3" [1%Q]] world0)
              [vrec "p1" [1%Q]; vrec "p2" [1%Q]; vrec "p3" [1%Q]]
              eq_refl eq_refl eq_refl) as (Hs & _ & _ & _ & Hw).
  split.
  - rewrite Hs. vm_compute. reflexivity.
  - apply (Hw _ eq_refl). vm_compute. reflexivity.
Defined.

(** ** Scenarios of the specification *)

(** The catalog has [p1], [p2], [p3] and the index has vectors for [p1] and
    [p2] only: two results, none for [p3]. *)
Example scenario_unembedded_product :
  result_ids (query (T:=topk_first) (Ok [1%Q]) items_p1_p2 catalog3 default_top_k
                default_min_score)
  = Some ["p1"; "p2"].
Proof. vm_compute. reflexivity. Qed.

(** With [min_score = 0.5] an item that scores 0.49 is left out. *)
Example scenario_below_threshold :
  query (T:=topk_first) (Ok [1%Q]) [vrec "p1" [49 # 100]; vrec "p2" [1%Q]] catalog3
    default_top_k (1 # 2)
  = Ok {| out_count := 1; out_results := [mk_result prod2 1] |}.
Proof. vm_compute. reflexivity. Qed.

(** An index persisted for model ["A"] is rebuilt before it is used. *)
Example scenario_other_model :
  needs_rebuild false
    {| ix_model := Some "A"; ix_created_at := Some 1600000000%Z;
       ix_count := Some 3%Z; ix_items := Some items_p1_p2 |} catalog3 = true.
Proof. reflexivity. Qed.

(** When the model raises on the last batch the build raises and nothing is
    saved. *)
Example scenario_model_down :
  build_index (C:=clip_down) catalog3 world_model_A = (Raise ModelError, world_model_A).
Proof. reflexivity. Qed.

(** A persisted dict without [items] passes [load_embeddings] and
    [ensure_index], and stops [search] at [index['items']]. *)
Example scenario_misshapen_index :
  (search (C:=clip_demo) (T:=topk_first) "q" default_top_k default_min_score
     (set_embeddings
        (Some (Doc {| ix_model := Some MODEL_NAME; ix_created_at := None;
                      ix_count := Some 3%Z; ix_items := None |})) world0)).1
  = Raise (KeyError "items").
Proof. vm_compute. reflexivity. Qed.

(** * Further properties of the index lifecycle *)

Section Lifecycle.
Context {C : Clip}.

Lemma embed_one_prepare (embed : Tensor -> list Q) (p : product) :
  embed_one embed p
  = (fun t => {| v_id := p_id p; v_embedding := embed t |}) <$> prepare p.
Proof.
  unfold embed_one, prepare.
  destruct (load_image (p_image_url p)) as [img|]; [| reflexivity]. simpl.
  destruct (preprocess img); reflexivity.
Qed.

Lemma length_omap_le {A R : Type} (f : A -> option R) (l : list A) :
  length (omap f l) <= length l
  /\ (length (omap f l) = length l <-> Forall (fun x => f x <> None) l).
Proof.
  induction l as [|x l [IH1 IH2]].
  - split; [reflexivity |]. split; [constructor | reflexivity].
  - change (omap f (x :: l))
      with (match f x with Some y => y :: omap f l | None => omap f l end).
    rewrite Forall_cons. destruct (f x) as [y|]; simpl length.
    + split; [lia |]. split.
      * intros H. split; [discriminate | apply IH2; lia].
      * intros [_ H]. apply IH2 in H. lia.
    + split; [lia |]. split; [lia |]. intros [H _]. contradiction.
Qed.

Lemma length_successes (embed : Tensor -> list Q) (products : list product) :
  length (successes embed products) <= length products
  /\ (length (successes embed products) = length products
      <-> Forall (fun p => ~ fails_to_embed p) products).
Proof.
  unfold successes, fails_to_embed.
  destruct (length_omap_le (embed_one embed) products) as [H1 H2].
  split; [exact H1 |]. rewrite H2. apply Forall_iff. intros p.
  rewrite embed_one_prepare. destruct (prepare p); simpl; split; congruence.
Qed.

Lemma load_products_save (items : list vector_record) (w : world) (t : Z) :
  load_products (at_time t (save_embeddings items w)) = load_products w.
Proof. reflexivity. Qed.

Lemma needs_rebuild_payload (items : list vector_record) (w : world)
    (products : list product) :
  needs_rebuild false (payload items w) products
  = (Z.of_nat (length items) <? Z.of_nat (length products))%Z.
Proof. reflexivity. Qed.

(** X1.  After a build by a model that embeds item by item, the next
    [ensure_index] reuses the persisted index when every catalog entry was
    embedded, and builds the whole index again when an entry was left out:
    the persisted count stays below the length of the catalog. *)
Theorem rebuild_settles_iff (embed : Tensor -> list Q) (products : list product)
    (w : world) (t : Z) :
  (forall ts, encode_image ts = Some (embed <$> ts)) ->
  load_products w = Ok products ->
  let w1 := at_time t (build_index products w).2 in
  (Forall (fun p => ~ fails_to_embed p) products ->
   ensure_index false w1 = (Ok (payload (successes embed products) w), w1))
  /\ (Exists fails_to_embed products ->
      ensure_index false w1 = build_index products w1).
Proof.
  intros Henc Hp w1.
  assert (Hw1 : w1 = at_time t (save_embeddings (successes embed products) w)).
  { unfold w1. rewrite (build_index_successes embed Henc). reflexivity. }
  assert (He : ensure_index false w1
               = if (Z.of_nat (length (successes embed products))
                     <? Z.of_nat (length products))%Z
                 then build_index products w1
                 else (Ok (payload (successes embed products) w), w1)).
  { rewrite Hw1. unfold ensure_index. rewrite load_products_save, Hp.
    change (load_embeddings (at_time t (save_embeddings (successes embed products) w)))
      with (Ok (payload (successes embed products) w)).
    cbv beta iota. rewrite needs_rebuild_payload. reflexivity. }
  destruct (length_successes embed products) as [Hle Heq].
  rewrite He. split.
  - intros Hall. apply Heq in Hall.
    destruct (Z.ltb_spec (Z.of_nat (length (successes embed products)))
                (Z.of_nat (length products))); [lia | reflexivity].
  - intros Hex.
    destruct (Z.ltb_spec (Z.of_nat (length (successes embed products)))
                (Z.of_nat (length products))) as [_|Hge]; [reflexivity |].
    exfalso. assert (Hall : Forall (fun p => ~ fails_to_embed p) products)
      by (apply Heq; lia).
    apply Exists_exists in Hex as (p & Hin & Hf).
    rewrite Forall_forall in Hall. apply (Hall p); assumption.
Qed.

Lemma build_step_down (st : batch_state) (p : product) :
  (forall ts, encode_image ts = None) ->
  build_step st p
  = match prepare p with
    | Some t => push t (p_id p) st
    | None => st
    end.
Proof.
  intros Hdown. unfold build_step, prepare.
  destruct (load_image (p_image_url p)) as [img|]; [| reflexivity]. simpl.
  destruct (preprocess img) as [t|]; [| reflexivity].
  case_decide; [| reflexivity].
  unfold flush_batch. simpl bs_imgs.
  destruct (bs_imgs st ++ [t]) as [|x l] eqn:E; [reflexivity |].
  rewrite Hdown. reflexivity.
Qed.

Lemma loop_down (products : list product) (st : batch_state) :
  (forall ts, encode_image ts = None) ->
  bs_items (foldl build_step st products) = bs_items st
  /\ bs_imgs (foldl build_step st products) = bs_imgs st ++ omap prepare products.
Proof.
  intros Hdown. revert st. induction products as [|p ps IH]; intros st.
  - simpl. rewrite app_nil_r. auto.
  - simpl foldl. rewrite (build_step_down st p Hdown).
    change (omap prepare (p :: ps))
      with (match prepare p with Some t => t :: omap prepare ps | None => omap prepare ps end).
    destruct (prepare p) as [t|].
    + destruct (IH (push t (p_id p) st)) as [H1 H2]. rewrite H1, H2. simpl.
      rewrite <- app_assoc. auto.
    + apply IH.
Qed.

(** X2.  When the model raises on every batch, the build raises
    [ModelError] and leaves the world as it was as soon as one catalog entry
    has an image that loads and preprocesses; when no entry has, the build
    succeeds and saves the empty index. *)
Theorem build_index_model_down (products : list product) (w : world) :
  (forall ts, encode_image ts = None) ->
  (Exists (fun p => ~ fails_to_embed p) products ->
   build_index products w = (Raise ModelError, w))
  /\ (Forall fails_to_embed products ->
      build_index products w = (Ok (built []), save_embeddings [] w)).
Proof.
  intros Hdown. unfold build_index, flush_batch.
  destruct (loop_down products init_batch Hdown) as [Hi Hb].
  rewrite Hb, Hi. simpl. split.
  - intros Hex. apply Exists_exists in Hex as (p & Hin & Hp).
    destruct (omap prepare products) as [|t ts] eqn:E.
    + exfalso. apply Hp. unfold fails_to_embed.
      destruct (prepare p) as [t|] eqn:Ht; [| reflexivity].
      assert (Hin' : t ∈ omap prepare products)
        by (apply list_elem_of_omap; eauto).
      rewrite E in Hin'. apply elem_of_nil in Hin' as [].
    + rewrite Hdown. reflexivity.
  - intros Hall.
    assert (E : omap prepare products = []).
    { apply elem_of_nil_inv. intros t Ht.
      apply list_elem_of_omap in Ht as (p & Hin & Hp).
      rewrite Forall_forall in Hall. rewrite (Hall p Hin) in Hp. discriminate Hp. }
    rewrite E, Hi. reflexivity.
Qed.

Lemma build_index_outcome (products : list product) (w : world) :
  (exists e, build_index products w = (Raise e, w))
  \/ (exists items, build_index products w = (Ok (built items), save_embeddings items w)).
Proof.
  unfold build_index.
  destruct (flush_batch (foldl build_step init_batch products)) as [st|e]; eauto.
Qed.

Lemma ensure_index_outcome (rebuild : bool) (w : world) :
  (ensure_index rebuild w).2 = w
  \/ (exists items products,
        load_products w = Ok products
        /\ ensure_index rebuild w = (Ok (built items), save_embeddings items w)
        /\ build_index products w = (Ok (built items), save_embeddings items w)).
Proof.
  unfold ensure_index.
  destruct (load_products w) as [products|e]; [| auto].
  destruct (load_embeddings w) as [d|e]; [| auto].
  destruct (needs_rebuild rebuild d products); [| auto].
  destruct (build_index_outcome products w) as [[e He] | [items Hi]].
  - rewrite He. auto.
  - rewrite Hi. right. exists items, products. auto.
Qed.

End Lifecycle.

Lemma rebuild_settles_iff_witness :
  ensure_index (C:=clip_demo) false
    (at_time 1700000999 (build_index (C:=clip_demo) big_catalog world_big).2)
  = build_index (C:=clip_demo) big_catalog
      (at_time 1700000999 (build_index (C:=clip_demo) big_catalog world_big).2).
Proof.
  apply (proj2 (rebuild_settles_iff (C:=clip_demo) demo_embed big_catalog world_big
                  1700000999 (fun ts => eq_refl) eq_refl)).
  apply Exists_exists. exists prod_missing. split; [| reflexivity].
  unfold big_catalog. apply elem_of_app. right. apply list_elem_of_here.
Defined.

Lemma build_index_model_down_witness :
  build_index (C:=clip_down) catalog3 world0 = (Raise ModelError, world0).
Proof.
  apply (proj1 (build_index_model_down (C:=clip_down) catalog3 world0
                  (fun ts => eq_refl))).
  apply Exists_cons_hd. discriminate.
Defined.

Section SearchLifecycle.
Context {C : Clip} {T : Torch}.

Lemma search_via_ensure (query_path : string) (top_k : Z) (min_score : Q)
    (w : world) (products : list product) :
  load_products w = Ok products ->
  search query_path top_k min_score w
  = (answer_from query_path top_k min_score products (ensure_index false w).1,
     (ensure_index false w).2).
Proof.
  intros Hp. unfold search, answer_from. rewrite Hp.
  destruct (ensure_index false w) as [[idx|e] w1]; reflexivity.
Qed.

Lemma search_world (query_path : string) (top_k : Z) (min_score : Q) (w : world) :
  (search query_path top_k min_score w).2 = (ensure_index false w).2.
Proof.
  unfold search, ensure_index.
  destruct (load_products w) as [products|e]; [| reflexivity].
  destruct (load_embeddings w) as [d|e]; [| reflexivity].
  destruct (needs_rebuild false d products); [| reflexivity].
  destruct (build_index products w) as [[idx|e] w1]; reflexivity.
Qed.

(** X3.  [search] never changes the catalog file or the clock, and it
    leaves the persisted index either as it was or as the result of one
    complete save of a freshly built index; whenever it raises before or in
    the build, the persisted index is as it was. *)
Theorem search_frame (query_path : string) (top_k : Z) (min_score : Q) (w : world) :
  let w' := (search query_path top_k min_score w).2 in
  products_json w' = products_json w
  /\ clock w' = clock w
  /\ (w' = w
      \/ exists items products,
           load_products w = Ok products
           /\ build_index products w = (Ok (built items), save_embeddings items w)
           /\ w' = save_embeddings items w
           /\ load_embeddings w' = Ok (payload items w)).
Proof.
  intros w'. unfold w'. rewrite search_world.
  destruct (ensure_index_outcome false w) as [-> | (items & products & Hp & -> & Hb)].
  - auto.
  - simpl. split; [reflexivity |]. split; [reflexivity |]. right.
    exists items, products. auto.
Qed.

(** X4.  A persisted file that is not JSON stops [ensure_index] before the
    staleness decision, also when the rebuild is forced: it raises the
    decoding error and the file stays as it is, and so does [search]. *)
Theorem unparsable_index_blocks_rebuild (rebuild : bool) (query_path : string)
    (top_k : Z) (min_score : Q) (w : world) (products : list product) (raw : string) :
  load_products w = Ok products ->
  embeddings_json w = Some (Unparsable raw) ->
  ensure_index rebuild w = (Raise JSONDecodeError, w)
  /\ search query_path top_k min_score w = (Raise JSONDecodeError, w).
Proof.
  intros Hp Hf.
  assert (He : forall b, ensure_index b w = (Raise JSONDecodeError, w)).
  { intros b. unfold ensure_index, load_embeddings. rewrite Hp, Hf. reflexivity. }
  split; [apply He |]. unfold search. rewrite Hp, He. reflexivity.
Qed.

Lemma ensure_index_reuse (w : world) (products : list product) (d : index) :
  load_products w = Ok products ->
  load_embeddings w = Ok d ->
  needs_rebuild false d products = false ->
  ensure_index false w = (Ok d, w).
Proof.
  intros Hp Hd Hn. unfold ensure_index. rewrite Hp, Hd, Hn. reflexivity.
Qed.

Lemma needs_rebuild_false_intro (d : index) (products : list product) (c : Z) :
  ix_model d = Some MODEL_NAME ->
  ix_count d = Some c ->
  (Z.of_nat (length products) <= c)%Z ->
  needs_rebuild false d products = false.
Proof.
  destruct d as [m t c' its]. simpl. intros -> -> Hc.
  unfold needs_rebuild, get_count, model_differs. simpl.
  apply Z.ltb_ge. exact Hc.
Qed.

(** X5.  The staleness decision looks at the count only: a persisted index
    of the current model whose count reaches the length of the catalog is
    reused even when none of its ids is in the catalog, and then [search]
    raises [EmptyEmbeddingsIndex] and leaves the file as it is, so the next
    search fails the same way. *)
Theorem search_swapped_catalog (query_path : string) (top_k : Z) (min_score : Q)
    (w : world) (products : list product) (d : index) (c : Z)
    (items : list vector_record) :
  load_products w = Ok products ->
  load_embeddings w = Ok d ->
  ix_model d = Some MODEL_NAME ->
  ix_count d = Some c ->
  (Z.of_nat (length products) <= c)%Z ->
  ix_items d = Some items ->
  (forall it p, it ∈ items -> p ∈ products -> p_id p <> v_id it) ->
  search query_path top_k min_score w = (Raise EmptyEmbeddingsIndex, w).
Proof.
  intros Hp Hd Hm Hc Hle Hi Hdisj.
  rewrite (search_via_ensure _ _ _ _ _ Hp).
  rewrite (ensure_index_reuse _ _ _ Hp Hd
             (needs_rebuild_false_intro _ _ _ Hm Hc Hle)).
  unfold answer_from. simpl. rewrite Hi. simpl. f_equal.
  rewrite query_unfold.
  assert (E : retained (catalog_map products) items = []).
  { apply elem_of_nil_inv. intros it Hit.
    apply elem_of_retained in Hit as (Hin & p & Hpin & Hid).
    apply (Hdisj it p Hin Hpin Hid). }
  rewrite E. reflexivity.
Qed.

(** X6.  A persisted dict of the current model whose count reaches the
    length of the catalog and that has no [items] key is reused as it is;
    [search] then raises [KeyError] at [index['items']] and leaves the file
    as it is. *)
Theorem search_index_without_items (query_path : string) (top_k : Z)
    (min_score : Q) (w : world) (products : list product) (d : index) (c : Z) :
  load_products w = Ok products ->
  load_embeddings w = Ok d ->
  ix_model d = Some MODEL_NAME ->
  ix_count d = Some c ->
  (Z.of_nat (length products) <= c)%Z ->
  ix_items d = None ->
  search query_path top_k min_score w = (Raise (KeyError "items"), w).
Proof.
  intros Hp Hd Hm Hc Hle Hi.
  rewrite (search_via_ensure _ _ _ _ _ Hp).
  rewrite (ensure_index_reuse _ _ _ Hp Hd
             (needs_rebuild_false_intro _ _ _ Hm Hc Hle)).
  unfold answer_from. simpl. rewrite Hi. reflexivity.
Qed.

Lemma build_index_any_world (products : list product) (w w2 : world) :
  (build_index products w2).1 = (build_index products w).1.
Proof.
  unfold build_index.
  destruct (flush_batch (foldl build_step init_batch products)); reflexivity.
Qed.

Lemma answer_from_items (query_path : string) (top_k : Z) (min_score : Q)
    (products : list product) (i1 i2 : index) :
  ix_items i1 = ix_items i2 ->
  answer_from query_path top_k min_score products (Ok i1)
  = answer_from query_path top_k min_score products (Ok i2).
Proof. intros H. unfold answer_from. simpl. rewrite H. reflexivity. Qed.

Lemma ensure_index_at_time (rebuild : bool) (w : world) (t : Z) :
  (ensure_index rebuild (at_time t w)).1 = (ensure_index rebuild w).1.
Proof.
  unfold ensure_index.
  change (load_products (at_time t w)) with (load_products w).
  change (load_embeddings (at_time t w)) with (load_embeddings w).
  destruct (load_products w) as [products|e]; [| reflexivity].
  destruct (load_embeddings w) as [d|e]; [| reflexivity].
  destruct (needs_rebuild rebuild d products); [| reflexivity].
  apply build_index_any_world.
Qed.

Lemma ensure_index_again (w : world) (t : Z) :
  match (ensure_index false w).1,
        (ensure_index false (at_time t (ensure_index false w).2)).1 with
  | Ok i1, Ok i2 => ix_items i1 = ix_items i2
  | Raise e1, Raise e2 => e1 = e2
  | _, _ => False
  end.
Proof.
  destruct (ensure_index_outcome false w) as [Hw | (items & ps & Hp & He & Hb)].
  - rewrite Hw, ensure_index_at_time.
    destruct (ensure_index false w).1; reflexivity.
  - rewrite He. simpl. unfold ensure_index.
    change (load_products (at_time t (save_embeddings items w)))
      with (load_products w).
    change (load_embeddings (at_time t (save_embeddings items w)))
      with (Ok (payload items w)).
    rewrite Hp. cbv beta iota.
    destruct (needs_rebuild false (payload items w) ps).
    + rewrite (build_index_any_world ps w), Hb. reflexivity.
    + reflexivity.
Qed.

(** X7.  A second [search] with the same arguments, at any later clock and
    over the file the first one left, gives the same answer or raises the
    same exception as the first: the answer from the persisted index is the
    answer from the index as built. *)
Theorem search_twice (query_path : string) (top_k : Z) (min_score : Q)
    (w : world) (t : Z) :
  (search query_path top_k min_score
     (at_time t (search query_path top_k min_score w).2)).1
  = (search query_path top_k min_score w).1.
Proof.
  rewrite search_world.
  destruct (load_products w) as [products|e] eqn:Hp.
  - assert (Hp2 : load_products (at_time t (ensure_index false w).2) = Ok products).
    { destruct (ensure_index_outcome false w) as [-> | (its & ps & _ & -> & _)];
        exact Hp. }
    rewrite (search_via_ensure _ _ _ _ _ Hp), (search_via_ensure _ _ _ _ _ Hp2).
    simpl. pose proof (ensure_index_again w t) as H.
    destruct (ensure_index false w).1 as [i1|e1];
      destruct (ensure_index false (at_time t (ensure_index false w).2)).1
        as [i2|e2]; try contradiction.
    + apply answer_from_items. symmetry. exact H.
    + rewrite H. reflexivity.
  - assert (He : (ensure_index false w).2 = w)
      by (unfold ensure_index; rewrite Hp; reflexivity).
    rewrite He. unfold search.
    change (load_products (at_time t w)) with (load_products w).
    rewrite Hp. reflexivity.
Qed.

End SearchLifecycle.

(** * Further properties of the ranking *)

Lemma rectangular_Forall (row : list Q) (rows : list (list Q)) :
  rectangular (row :: rows) = true ->
  Forall (fun r => length r = length row) (row :: rows).
Proof.
  simpl. intros H. constructor; [reflexivity |].
  apply Forall_forall. intros r Hr.
  rewrite forallb_forall in H. apply Nat.eqb_eq, H, list_elem_of_In, Hr.
Qed.

(** When the checks of [query] pass, some record is retained, the retained
    embeddings have the dimension of the query, and [top_k] is not negative. *)
Lemma query_guard_Ok_inv (rq : result (list Q)) (items : list vector_record)
    (products : list product) (top_k : Z) (q : list Q) :
  query_guard rq items products top_k = Ok q ->
  rq = Ok q
  /\ retained (catalog_map products) items <> []
  /\ Forall (fun it => length (v_embedding it) = length q)
       (retained (catalog_map products) items)
  /\ (0 <= top_k)%Z.
Proof.
  unfold query_guard.
  destruct (retained (catalog_map products) items) as [|it kept] eqn:E;
    [discriminate |].
  destruct (rectangular (v_embedding <$> it :: kept)) eqn:Hr; [| discriminate].
  simpl negb. cbv iota.
  destruct rq as [q'|e]; [| discriminate]. unfold mbind, result_bind.
  destruct (Nat.eqb_spec (length q') (length (v_embedding it))) as [Hd|Hd];
    [| discriminate].
  simpl negb. cbv iota.
  destruct (Z.ltb_spec (Z.min top_k (Z.of_nat (matched items products))) 0)
    as [Hk|Hk]; [discriminate |].
  intros [= ->]. split; [reflexivity |]. split; [discriminate |]. split; [| lia].
  rewrite fmap_cons in Hr. apply rectangular_Forall in Hr.
  rewrite <- fmap_cons in Hr. apply Forall_fmap in Hr. rewrite Hd. exact Hr.
Qed.

Lemma query_guard_cases (q : list Q) (items : list vector_record)
    (products : list product) (top_k : Z) :
  retained (catalog_map products) items <> [] ->
  Forall (fun it => length (v_embedding it) = length q)
    (retained (catalog_map products) items) ->
  query_guard (Ok q) items products top_k
  = if (top_k <? 0)%Z then Raise TopkRangeError else Ok q.
Proof.
  intros Hne Hdim. unfold query_guard.
  rewrite (rectangular_same_length (length q)) by (apply Forall_fmap; exact Hdim).
  destruct (retained (catalog_map products) items) as [|it kept] eqn:E;
    [contradiction |].
  apply Forall_cons in Hdim as [Hit _].
  unfold mbind, result_bind. rewrite Hit, Nat.eqb_refl. cbn [negb].
  destruct (Z.ltb_spec (Z.min top_k (Z.of_nat (matched items products))) 0);
    destruct (Z.ltb_spec top_k 0); try reflexivity; lia.
Qed.

(** X8.  The edges of [top_k], once a record is retained and the dimensions
    agree: [top_k = 0] gives the empty answer with count 0, a negative
    [top_k] makes [torch.topk] raise, and a [top_k] above the number of
    retained records asks [topk] for all of them and no more. *)
Theorem query_top_k_edges {T : Torch} `{!TopkSpec T} (q : list Q)
    (items : list vector_record) (products : list product) (m : Q) :
  retained (catalog_map products) items <> [] ->
  Forall (fun it => length (v_embedding it) = length q)
    (retained (catalog_map products) items) ->
  query (Ok q) items products 0 m = Ok {| out_count := 0; out_results := [] |}
  /\ (forall top_k, (top_k < 0)%Z ->
        query (Ok q) items products top_k m = Raise TopkRangeError)
  /\ (forall top_k, (Z.of_nat (matched items products) <= top_k)%Z ->
        query (Ok q) items products top_k m
        = query (Ok q) items products (Z.of_nat (matched items products)) m).
Proof.
  intros Hne Hdim. split; [| split].
  - rewrite query_split, (query_guard_cases _ _ _ _ Hne Hdim). simpl.
    pose proof (topk_length (scores q items products) (selected 0 items products)
                  (selected_le q items products 0)) as Hl.
    assert (Hs : selected 0 items products = 0) by (unfold selected; lia).
    rewrite Hs in Hl |- *.
    destruct (topk (scores q items products) 0) as [|s l]; [reflexivity |].
    discriminate Hl.
  - intros top_k Hk. rewrite query_split, (query_guard_cases _ _ _ _ Hne Hdim).
    destruct (Z.ltb_spec top_k 0); [reflexivity | lia].
  - intros top_k Hk. rewrite !query_split, !(query_guard_cases _ _ _ _ Hne Hdim).
    destruct (Z.ltb_spec top_k 0); [lia |].
    destruct (Z.ltb_spec (Z.of_nat (matched items products)) 0); [lia |].
    assert (Hs : selected top_k items products
                 = selected (Z.of_nat (matched items products)) items products)
      by (unfold selected; lia).
    rewrite Hs. reflexivity.
Qed.

Lemma query_top_k_edges_witness :
  query (T:=topk_first) (Ok [1%Q]) items_tie_neg catalog3 0 0
  = Ok {| out_count := 0; out_results := [] |}.
Proof.
  apply (proj1 (query_top_k_edges (T:=topk_first) (TopkSpec0:=topk_first_spec)
                  [1%Q] items_tie_neg catalog3 0
                  ltac:(vm_compute; discriminate)
                  ltac:(vm_compute; repeat constructor))).
Defined.

Lemma catalog_fold_other (ps : list product) (m : gmap string product) (k : string) :
  Forall (fun p => p_id p <> k) ps ->
  foldl (fun m p => <[p_id p := p]> m) m ps !! k = m !! k.
Proof.
  revert m. induction ps as [|a ps IH]; intros m H; [reflexivity |].
  apply Forall_cons in H as [Ha Hps]. simpl.
  rewrite (IH _ Hps). apply lookup_insert_ne. exact Ha.
Qed.

(** In a catalog that repeats an id, the map built by [search] holds the
    last product with that id. *)
Lemma catalog_map_last (ps1 ps2 : list product) (p : product) :
  Forall (fun p' => p_id p' <> p_id p) ps2 ->
  catalog_map (ps1 ++ p :: ps2) !! p_id p = Some p.
Proof.
  intros H. unfold catalog_map. rewrite foldl_app. simpl.
  rewrite (catalog_fold_other _ _ _ H). apply lookup_insert_eq.
Qed.

(** X9.  When the catalog holds several products with one id, every result
    with that id carries the name, category and image of the last of them. *)
Theorem results_carry_last_product {T : Torch} (rq : result (list Q))
    (items : list vector_record) (ps1 ps2 : list product) (p : product)
    (top_k : Z) (m : Q) (out : search_output) :
  query rq items (ps1 ++ p :: ps2) top_k m = Ok out ->
  Forall (fun p' => p_id p' <> p_id p) ps2 ->
  forall r, r ∈ out_results out -> r_id r = p_id p ->
    r = mk_result p (r_score r).
Proof.
  intros Hout Hlast r Hr Hid.
  apply query_Ok_inv in Hout as (q & rs & _ & _ & _ & Hc & ->). simpl in Hr.
  destruct (collect_results _ _ _ _ _ _ Hc Hr)
    as (s & pid & p0 & _ & _ & _ & Hpm & ->).
  simpl in Hid |- *.
  pose proof (catalog_map_Some _ _ _ Hpm) as [_ Hp0].
  rewrite <- Hp0, Hid, (catalog_map_last _ _ _ Hlast) in Hpm.
  injection Hpm as <-. reflexivity.
Qed.

Lemma results_carry_last_product_witness :
  mk_result prod1_renamed 1
  = mk_result prod1_renamed (r_score (mk_result prod1_renamed 1)).
Proof.
  apply (results_carry_last_product (T:=topk_first) (Ok [1%Q]) items_p1_p2
           [prod1] [prod2] prod1_renamed 2 0
           {| out_count := 2;
              out_results := [mk_result prod1_renamed 1; mk_result prod2 1] |}).
  - vm_compute. reflexivity.
  - repeat constructor. discriminate.
  - apply list_elem_of_here.
  - reflexivity.
Defined.

Lemma filter_fst_fmap {A R : Type} (P : A -> Prop) `{!forall x, Decision (P x)}
    (l : list (A * R)) :
  (filter (fun s => P s.1) l).*1 = filter P l.*1.
Proof.
  induction l as [|[a b] l IH]; [reflexivity |].
  rewrite fmap_cons, !filter_cons. cbn [fst].
  destruct (decide (P a)) as [Ha|Ha]; [| exact IH].
  rewrite fmap_cons, IH. reflexivity.
Qed.

(** X10.  The results are among the best: for every result, fewer than
    [top_k] retained records score strictly more than it. *)
Theorem fewer_than_top_k_score_higher {T : Torch} `{!TopkSpec T} (q : list Q)
    (items : list vector_record) (products : list product) (top_k : Z) (m : Q)
    (out : search_output) :
  query (Ok q) items products top_k m = Ok out ->
  forall r, r ∈ out_results out ->
    (Z.of_nat (length (filter (fun u => (r_score r < u)%Q)
                         (scores q items products))) < top_k)%Z.
Proof.
  intros Hout r Hr.
  apply query_Ok_inv in Hout as (q' & rs & [= <-] & _ & Hk & Hc & ->).
  simpl in Hr.
  destruct (collect_results _ _ _ _ _ _ Hc Hr)
    as ([v i] & pid & p & Hsel & _ & _ & _ & ->).
  simpl r_score. simpl fst in *.
  set (sims := scores q items products) in *.
  set (k := selected top_k items products) in *.
  assert (Hkn : k <= length sims) by apply selected_le.
  set (pairs := zip sims (seq 0 (length sims))).
  assert (Hfst : pairs.*1 = sims)
    by (apply fst_zip; rewrite length_seq; reflexivity).
  rewrite <- Hfst, <- filter_fst_fmap, length_fmap.
  set (L := filter (fun s : Q * nat => (v < s.1)%Q) pairs).
  assert (Hnd : NoDup ((v, i) :: L)).
  { apply NoDup_cons. split.
    - intros Hin. apply list_elem_of_filter in Hin as [Hlt _].
      simpl in Hlt. revert Hlt. apply Qlt_irrefl.
    - apply NoDup_filter. apply (NoDup_fmap_1 snd).
      unfold pairs. rewrite snd_zip by (rewrite length_seq; reflexivity).
      apply NoDup_seq. }
  assert (Hsub : forall x, x ∈ (v, i) :: L -> x ∈ topk sims k).
  { intros x Hx. apply elem_of_cons in Hx as [-> | Hx]; [exact Hsel |].
    destruct x as [u j]. apply list_elem_of_filter in Hx as [Hlt Hin].
    simpl in Hlt. apply elem_of_enumerate in Hin.
    destruct (decide (j ∈ (topk sims k).*2)) as [Hj | Hj].
    - apply list_elem_of_fmap in Hj as ([u' j'] & Hjj & Hin'). simpl in Hjj.
      subst j'. pose proof (topk_lookup _ _ _ _ Hkn Hin') as Hu'.
      rewrite Hin in Hu'. injection Hu' as <-. exact Hin'.
    - exfalso. apply (Qlt_not_le _ _ Hlt).
      apply (topk_largest sims k v i j u Hkn Hsel Hin Hj). }
  pose proof (submseteq_length _ _ (NoDup_submseteq _ _ Hnd Hsub)) as Hlen.
  rewrite (topk_length _ _ Hkn) in Hlen. simpl in Hlen.
  unfold k, selected in Hlen. lia.
Qed.

Lemma fewer_than_top_k_score_higher_witness :
  (Z.of_nat (length (filter (fun u => (r_score (mk_result prod1 1) < u)%Q)
                       (scores [1%Q] items_tie_neg catalog3))) < 1)%Z.
Proof.
  apply (fewer_than_top_k_score_higher (T:=topk_first) (TopkSpec0:=topk_first_spec)
           [1%Q] items_tie_neg catalog3 1 0
           {| out_count := 1; out_results := [mk_result prod1 1] |}).
  - vm_compute. reflexivity.
  - apply list_elem_of_here.
Defined.

Lemma dot_cons (x y : Q) (a b : list Q) :
  dot (x :: a) (y :: b) = (x * y + dot a b)%Q.
Proof. reflexivity. Qed.

Lemma Qsquare_nonneg (x : Q) : (0 <= x * x)%Q.
Proof.
  destruct x as [n d]. unfold Qle, Qmult. simpl.
  rewrite Z.mul_1_r. apply Z.square_nonneg.
Qed.

Lemma dot_self_nonneg (a : list Q) : (0 <= dot a a)%Q.
Proof.
  induction a as [|x a IH]; [discriminate |].
  rewrite dot_cons. pose proof (Qsquare_nonneg x). lra.
Qed.

Lemma dot_difference (a b : list Q) :
  length a = length b ->
  (dot (zip_with Qminus a b) (zip_with Qminus a b)
   == dot a a + dot b b - (2 # 1) * dot a b)%Q.
Proof.
  revert b. induction a as [|x a IH]; intros [|y b] Hlen; try discriminate Hlen.
  - reflexivity.
  - cbn [zip_with]. rewrite !dot_cons, IH by (injection Hlen; auto). ring.
Qed.

Lemma dot_sum (a b : list Q) :
  length a = length b ->
  (dot (zip_with Qplus a b) (zip_with Qplus a b)
   == dot a a + dot b b + (2 # 1) * dot a b)%Q.
Proof.
  revert b. induction a as [|x a IH]; intros [|y b] Hlen; try discriminate Hlen.
  - reflexivity.
  - cbn [zip_with]. rewrite !dot_cons, IH by (injection Hlen; auto). ring.
Qed.

(** The dot product of two vectors of norm 1 lies between -1 and 1. *)
Lemma dot_unit_bounded (a b : list Q) :
  length a = length b ->
  (dot a a == 1)%Q -> (dot b b == 1)%Q ->
  (-1 <= dot a b)%Q /\ (dot a b <= 1)%Q.
Proof.
  intros Hlen Ha Hb.
  pose proof (dot_self_nonneg (zip_with Qminus a b)) as Hd.
  pose proof (dot_self_nonneg (zip_with Qplus a b)) as Hs.
  rewrite (dot_difference a b Hlen), Ha, Hb in Hd.
  rewrite (dot_sum a b Hlen), Ha, Hb in Hs.
  split; lra.
Qed.

(** X11.  In exact arithmetic, when the query and the retained embeddings
    have norm 1, every score that [query] returns lies between -1 and 1. *)
Theorem result_scores_bounded {T : Torch} `{!TopkSpec T} (q : list Q)
    (items : list vector_record) (products : list product) (top_k : Z) (m : Q)
    (out : search_output) :
  query (Ok q) items products top_k m = Ok out ->
  (dot q q == 1)%Q ->
  Forall (fun it => (dot (v_embedding it) (v_embedding it) == 1)%Q)
    (retained (catalog_map products) items) ->
  forall r, r ∈ out_results out -> (-1 <= r_score r)%Q /\ (r_score r <= 1)%Q.
Proof.
  intros Hout Hq Hunit r Hr. rewrite query_split in Hout.
  destruct (query_guard (Ok q) items products top_k) as [qf|e] eqn:Hg;
    [| discriminate Hout].
  apply query_guard_Ok_inv in Hg as ([= <-] & _ & Hdim & _).
  unfold mbind, result_bind in Hout.
  destruct (collect _ _ _ _) as [rs|e] eqn:Hc; [| discriminate Hout].
  injection Hout as <-. simpl in Hr.
  destruct (collect_results _ _ _ _ _ _ Hc Hr)
    as ([v i] & pid & p & Hsel & _ & _ & _ & ->).
  simpl r_score. simpl fst.
  apply (topk_lookup _ _ _ _ (selected_le q items products top_k)) in Hsel.
  unfold scores in Hsel. rewrite !list_lookup_fmap in Hsel.
  destruct (retained (catalog_map products) items !! i) as [it|] eqn:Hit;
    [| discriminate Hsel].
  injection Hsel as <-. apply list_elem_of_lookup_2 in Hit.
  rewrite Forall_forall in Hdim, Hunit.
  apply dot_unit_bounded; [symmetry; apply Hdim, Hit | exact Hq | apply Hunit, Hit].
Qed.

Lemma result_scores_bounded_witness :
  (-1 <= r_score (mk_result prod3 (-1)))%Q /\ (r_score (mk_result prod3 (-1)) <= 1)%Q.
Proof.
  apply (result_scores_bounded (T:=topk_first) (TopkSpec0:=topk_first_spec)
           [1%Q] items_tie_neg catalog3 3 (-1)
           {| out_count := 3;
              out_results := [mk_result prod1 1; mk_result prod2 1;
                              mk_result prod3 (-1)] |}).
  - vm_compute. reflexivity.
  - reflexivity.
  - vm_compute. repeat constructor.
  - apply list_elem_of_further, list_elem_of_further, list_elem_of_here.
Defined.

(** * Image loading and its cache *)

Section ImageIOFacts.
Context {E : ImageIO.Env}.

(** What [download_to_cache] returns and leaves behind. *)
Lemma download_to_cache_cases (net : ImageIO.network) (url : string)
    (fs : gmap string (list Byte.byte)) :
  (exists x l, fs !! ImageIO.url_to_cache_path url = Some (x :: l)
     /\ ImageIO.download_to_cache net url fs
        = (ImageIO.Done (ImageIO.url_to_cache_path url), fs))
  \/ ((fs !! ImageIO.url_to_cache_path url = None
       \/ fs !! ImageIO.url_to_cache_path url = Some [])
      /\ ImageIO.download_to_cache net url fs
         = match net url with
           | None => (ImageIO.Failed ImageIO.URLError, fs)
           | Some data =>
               (ImageIO.Done (ImageIO.url_to_cache_path url),
                <[ImageIO.url_to_cache_path url := data]> fs)
           end).
Proof.
  unfold ImageIO.download_to_cache.
  destruct (fs !! ImageIO.url_to_cache_path url) as [[|x l]|] eqn:Hp.
  - right. auto.
  - left. eauto.
  - right. auto.
Qed.

Lemma download_to_cache_hit (net : ImageIO.network) (url : string)
    (fs : gmap string (list Byte.byte)) (data : list Byte.byte) :
  fs !! ImageIO.url_to_cache_path url = Some data -> data <> [] ->
  ImageIO.download_to_cache net url fs
  = (ImageIO.Done (ImageIO.url_to_cache_path url), fs).
Proof.
  intros Hp Hne. unfold ImageIO.download_to_cache. rewrite Hp.
  destruct data; [contradiction | reflexivity].
Qed.

Lemma download_to_cache_Done (net : ImageIO.network) (url : string)
    (fs fs' : gmap string (list Byte.byte)) (p : string) :
  ImageIO.download_to_cache net url fs = (ImageIO.Done p, fs') ->
  p = ImageIO.url_to_cache_path url /\ is_Some (fs' !! p).
Proof.
  destruct (download_to_cache_cases net url fs)
    as [(x & l & Hp & ->) | [_ ->]].
  - intros [= <- <-]. eauto.
  - destruct (net url) as [data|]; [| discriminate].
    intros [= <- <-]. split; [reflexivity |]. rewrite lookup_insert_eq. eauto.
Qed.

Lemma cached_file_serves_hash_aux (net : ImageIO.network) (url : string)
    (fs fs' : gmap string (list Byte.byte)) :
  ImageIO.download_to_cache net url fs
  = (ImageIO.Done (ImageIO.url_to_cache_path url), fs') ->
  fs' !! ImageIO.url_to_cache_path url <> Some [] ->
  forall net', ImageIO.download_to_cache net' url fs'
               = (ImageIO.Done (ImageIO.url_to_cache_path url), fs').
Proof.
  intros Hd Hne net'.
  apply download_to_cache_Done in Hd as [_ [data Hdata]].
  apply (download_to_cache_hit net' url fs' data Hdata).
  intros ->. contradiction.
Qed.

(** X12.  The cache is keyed by the hash of the URL alone: once a download
    has left a file that is not empty, every URL with the same hash is
    served that file, whatever the network does. *)
Theorem cached_file_serves_hash (net : ImageIO.network) (u1 u2 : string)
    (fs fs' : gmap string (list Byte.byte)) (p : string) :
  ImageIO.download_to_cache net u1 fs = (ImageIO.Done p, fs') ->
  fs' !! p <> Some [] ->
  ImageIO.sha1 u2 = ImageIO.sha1 u1 ->
  forall net', ImageIO.download_to_cache net' u2 fs' = (ImageIO.Done p, fs').
Proof.
  intros Hd Hne Hh net'.
  apply download_to_cache_Done in Hd as [-> [data Hdata]].
  assert (Hp : ImageIO.url_to_cache_path u2 = ImageIO.url_to_cache_path u1)
    by (unfold ImageIO.url_to_cache_path; rewrite Hh; reflexivity).
  rewrite <- Hp in *. apply (download_to_cache_hit net' u2 fs' data Hdata).
  intros ->. contradiction.
Qed.

(** X13.  [load_image] writes nothing for a local path, changes no file
    but the cache file of a URL, and leaves the files as they were when the
    download fails. *)
Theorem load_image_frame (net : ImageIO.network) (path : string)
    (fs : gmap string (list Byte.byte)) :
  let r := ImageIO.load_image net path fs in
  (ImageIO.is_url path = false -> r.2 = fs)
  /\ (forall q, q <> ImageIO.url_to_cache_path path -> r.2 !! q = fs !! q)
  /\ (r.1 = ImageIO.Failed ImageIO.URLError -> r.2 = fs).
Proof.
  unfold ImageIO.load_image. destruct (ImageIO.is_url path).
  - destruct (download_to_cache_cases net path fs)
      as [(x & l & Hp & ->) | [_ ->]]; simpl.
    + auto.
    + destruct (net path) as [data|]; simpl; [| auto].
      split; [discriminate |]. split.
      * intros q Hq. apply lookup_insert_ne. congruence.
      * unfold ImageIO.open_image. rewrite lookup_insert_eq.
        destruct (ImageIO.decode data); discriminate.
  - simpl. auto.
Qed.

(** X14.  Where an empty file is not an image, a path or URL that loaded
    once loads again with the same pixels and without any change of the
    files, whatever the network does then. *)
Theorem load_image_again_offline (net : ImageIO.network) (path : string)
    (fs fs' : gmap string (list Byte.byte)) (px : ImageIO.Pixels) :
  ImageIO.decode [] = None ->
  ImageIO.load_image net path fs = (ImageIO.Done px, fs') ->
  forall net', ImageIO.load_image net' path fs' = (ImageIO.Done px, fs').
Proof.
  intros Hempty. unfold ImageIO.load_image.
  destruct (ImageIO.is_url path).
  - destruct (ImageIO.download_to_cache net path fs) as [[p|e] fs1] eqn:Hd;
      [| discriminate].
    intros [= Ho <-] net'.
    pose proof (download_to_cache_Done _ _ _ _ _ Hd) as [-> _].
    assert (Hne : fs1 !! ImageIO.url_to_cache_path path <> Some []).
    { intros Hnil. unfold ImageIO.open_image in Ho.
      rewrite Hnil, Hempty in Ho. discriminate Ho. }
    rewrite (cached_file_serves_hash_aux net path fs fs1 Hd Hne net').
    rewrite Ho. reflexivity.
  - intros [= Ho <-] net'. rewrite Ho. reflexivity.
Qed.

(** X15.  A cached file that is not empty and is not an image stays: every
    later load of the URL fails on it without asking the network, and the
    files do not change. *)
Theorem bad_cached_image_sticks (net : ImageIO.network) (url : string)
    (fs fs' : gmap string (list Byte.byte)) :
  ImageIO.is_url url = true ->
  ImageIO.load_image net url fs = (ImageIO.Failed ImageIO.BadImage, fs') ->
  fs' !! ImageIO.url_to_cache_path url <> Some [] ->
  forall net', ImageIO.load_image net' url fs'
               = (ImageIO.Failed ImageIO.BadImage, fs').
Proof.
  intros Hurl. unfold ImageIO.load_image. rewrite Hurl.
  destruct (ImageIO.download_to_cache net url fs) as [[p|e] fs1] eqn:Hd.
  - intros [= Ho <-] Hne net'.
    pose proof (download_to_cache_Done _ _ _ _ _ Hd) as [-> _].
    rewrite (cached_file_serves_hash_aux net url fs fs1 Hd Hne net').
    rewrite Ho. reflexivity.
  - intros [= -> <-].
    destruct (download_to_cache_cases net url fs)
      as [(x & l & Hp & H) | [_ H]]; rewrite H in Hd; [discriminate Hd |].
    destruct (net url); discriminate Hd.
Qed.

End ImageIOFacts.

Lemma cached_file_serves_hash_witness :
  ImageIO.download_to_cache (E:=ImageIO.env_demo) ImageIO.net_down "https://b/x"
    (<[ "/app/data/images_cache/x.jpg" := [Byte.x41] ]> ∅)
  = (ImageIO.Done "/app/data/images_cache/x.jpg",
     <[ "/app/data/images_cache/x.jpg" := [Byte.x41] ]> ∅).
Proof.
  apply (cached_file_serves_hash (E:=ImageIO.env_demo) ImageIO.net_up
           "http://a/x" "https://b/x" ∅
           (<[ "/app/data/images_cache/x.jpg" := [Byte.x41] ]> ∅)
           "/app/data/images_cache/x.jpg").
  - reflexivity.
  - rewrite lookup_insert_eq. discriminate.
  - reflexivity.
Defined.

Lemma load_image_again_offline_witness :
  ImageIO.load_image (E:=ImageIO.env_demo) ImageIO.net_down "http://a/x"
    (<[ "/app/data/images_cache/x.jpg" := [Byte.x41] ]> ∅)
  = (ImageIO.Done [Byte.x41], <[ "/app/data/images_cache/x.jpg" := [Byte.x41] ]> ∅).
Proof.
  apply (load_image_again_offline (E:=ImageIO.env_demo) ImageIO.net_up
           "http://a/x" ∅).
  - reflexivity.
  - reflexivity.
Defined.

Lemma bad_cached_image_sticks_witness :
  ImageIO.load_image (E:=ImageIO.env_demo) ImageIO.net_up "http://a/x"
    (<[ "/app/data/images_cache/x.jpg" := [Byte.x42] ]> ∅)
  = (ImageIO.Failed ImageIO.BadImage,
     <[ "/app/data/images_cache/x.jpg" := [Byte.x42] ]> ∅).
Proof.
  apply (bad_cached_image_sticks (E:=ImageIO.env_demo) ImageIO.net_garbage
           "http://a/x" ∅).
  - reflexivity.
  - reflexivity.
  - rewrite lookup_insert_eq. discriminate.
Defined.

Lemma load_image_frame_witness :
  (ImageIO.load_image (E:=ImageIO.env_demo) ImageIO.net_down "http://a/x" ∅).2 = ∅.
Proof.
  apply (proj2 (proj2 (load_image_frame (E:=ImageIO.env_demo) ImageIO.net_down
                         "http://a/x" ∅))).
  reflexivity.
Defined.

(** * Classification and the command line *)

Lemma argmax_val_spec (l : list Q) (i : nat) (v : Q) :
  argmax_val l = Some (i, v) ->
  l !! i = Some v
  /\ (forall j x, l !! j = Some x -> (x <= v)%Q)
  /\ (forall j x, l !! j = Some x -> j < i -> (x < v)%Q).
Proof.
  revert i v. induction l as [|x l IH]; intros i v; [discriminate |].
  simpl. destruct (argmax_val l) as [[i' y]|] eqn:Hl.
  - destruct (IH i' y eq_refl) as (Hi & Hmax & Hfirst).
    destruct (Qltb x y) eqn:Hxy.
    + intros [= <- <-]. apply Qltb_lt in Hxy. split; [exact Hi |]. split.
      * intros [|j] z Hz; simpl in Hz.
        -- injection Hz as <-. apply Qlt_le_weak, Hxy.
        -- apply (Hmax j z Hz).
      * intros [|j] z Hz Hj; simpl in Hz.
        -- injection Hz as <-. exact Hxy.
        -- apply (Hfirst j z Hz). lia.
    + intros [= <- <-]. apply Qltb_ge in Hxy. split; [reflexivity |]. split.
      * intros [|j] z Hz; simpl in Hz.
        -- injection Hz as <-. apply Qle_refl.
        -- apply Qle_trans with y; [apply (Hmax j z Hz) | exact Hxy].
      * intros j z _ Hj. lia.
  - intros [= <- <-]. destruct l as [|y l]; [| simpl in Hl].
    + split; [reflexivity |]. split.
      * intros [|j] z Hz; simpl in Hz; [| discriminate Hz].
        injection Hz as <-. apply Qle_refl.
      * intros j z _ Hj. lia.
    + destruct (argmax_val l) as [[i' y']|]; [destruct (Qltb y y') |];
        discriminate Hl.
Qed.

Lemma argmax_val_is_Some (l : list Q) : l <> [] -> is_Some (argmax_val l).
Proof.
  destruct l as [|x l]; [contradiction |]. intros _. simpl.
  destruct (argmax_val l) as [[i y]|]; [destruct (Qltb x y) |]; eauto.
Qed.

Section CommandLineFacts.
Context {C : Clip} {T : Torch} {X : TextModel}.

(** X16.  Whatever the models return, a category that [classify] returns
    is one of the six known categories, and the name is that category after
    ["Uploaded "]. *)
Theorem classify_category_known (image_path : string) (c : classification) :
  classify image_path = Ok c ->
  c_category c ∈ categories /\ c_name c = "Uploaded " +:+ c_category c.
Proof.
  unfold classify.
  destruct (encode_text texts) as [tf|]; [| discriminate]. simpl.
  destruct (encode_query image_path) as [qf|e]; [| discriminate]. simpl.
  destruct (negb (forallb _ tf)); [discriminate |].
  destruct (argmax (dot qf <$> tf)) as [i|]; [| discriminate]. simpl.
  destruct (categories !! i) as [best|] eqn:Hi; [| discriminate]. simpl.
  intros [= <-]. simpl. split; [| reflexivity].
  apply list_elem_of_lookup_2 in Hi. exact Hi.
Qed.

(** X17.  When the text model returns one vector for each category, of the
    dimension of the encoded image, [classify] returns the category whose
    text is most similar to the image, and among equally similar ones the
    first of the list. *)
Theorem classify_first_best (image_path : string) (tf : list (list Q))
    (qf : list Q) :
  encode_text texts = Some tf ->
  encode_query image_path = Ok qf ->
  Forall (fun row => length row = length qf) tf ->
  length tf = length categories ->
  exists i best v,
    classify image_path
    = Ok {| c_category := best; c_name := "Uploaded " +:+ best |}
    /\ categories !! i = Some best
    /\ (dot qf <$> tf) !! i = Some v
    /\ (forall j x, (dot qf <$> tf) !! j = Some x -> (x <= v)%Q)
    /\ (forall j x, (dot qf <$> tf) !! j = Some x -> j < i -> (x < v)%Q).
Proof.
  intros Ht Hq Hdim Hlen. unfold classify. rewrite Ht, Hq. simpl.
  assert (Hf : forallb (fun row => Nat.eqb (length row) (length qf)) tf = true).
  { apply forallb_forall. intros row Hin. apply Nat.eqb_eq.
    rewrite Forall_forall in Hdim. apply Hdim, list_elem_of_In, Hin. }
  rewrite Hf. simpl.
  destruct (argmax_val_is_Some (dot qf <$> tf)) as [[i v] Hiv].
  { intros Hnil. apply (f_equal length) in Hnil.
    rewrite length_fmap, Hlen in Hnil. discriminate Hnil. }
  destruct (argmax_val_spec _ _ _ Hiv) as (Hi & Hmax & Hfirst).
  assert (Hlt : i < length categories).
  { apply lookup_lt_Some in Hi. rewrite length_fmap, Hlen in Hi. exact Hi. }
  apply lookup_lt_is_Some_2 in Hlt as [best Hbest].
  exists i, best, v. unfold argmax. rewrite Hiv. simpl. rewrite Hbest. simpl.
  auto.
Qed.

(** X18.  With [--classify], [main] reads and writes neither the catalog
    nor the index: the world is left as it was, [--rebuild] has no effect,
    and what is printed depends on the image alone. *)
Theorem main_classify_mode (a : args) (w : world) :
  arg_classify a = true ->
  (main a w).2 = w
  /\ (forall a' w', arg_classify a' = true -> arg_image a' = arg_image a ->
        (main a' w').1 = (main a w).1).
Proof.
  intros Hc. unfold main. rewrite Hc. split.
  - destruct (classify (arg_image a)); reflexivity.
  - intros a' w' -> ->. destruct (classify (arg_image a)); reflexivity.
Qed.

Lemma ensure_index_Raise_world (rebuild : bool) (w w1 : world) (ex : exn) :
  ensure_index rebuild w = (Raise ex, w1) -> w1 = w.
Proof.
  intros He.
  destruct (ensure_index_outcome rebuild w) as [Hw | (items & ps & _ & H & _)].
  - rewrite He in Hw. exact Hw.
  - rewrite He in H. discriminate H.
Qed.

(** X19.  How [main] ends.  An exception leaves it uncaught only in a
    forced rebuild, with nothing printed and the world as it was; in every
    other failure one error line is printed and the exit code is 1; and a
    normal return has printed exactly one answer. *)
Theorem main_endings (a : args) (w : world) :
  match status (main a w).1 with
  | Uncaught ex =>
      arg_classify a = false /\ arg_rebuild a = true
      /\ ensure_index true w = (Raise ex, w)
      /\ stdout (main a w).1 = [] /\ (main a w).2 = w
  | Exited code =>
      code = 1%Z /\ exists ex, stdout (main a w).1 = [ErrorLine ex]
  | Returned =>
      (exists out, stdout (main a w).1 = [SearchLine out])
      \/ (exists c, stdout (main a w).1 = [ClassifyLine c])
  end.
Proof.
  assert (Hs : forall w0,
    match status (search_and_print a w0).1 with
    | Uncaught _ => False
    | Exited code =>
        code = 1%Z /\ exists ex, stdout (search_and_print a w0).1 = [ErrorLine ex]
    | Returned =>
        (exists out, stdout (search_and_print a w0).1 = [SearchLine out])
        \/ (exists c, stdout (search_and_print a w0).1 = [ClassifyLine c])
    end).
  { intros w0. unfold search_and_print.
    destruct (search (arg_image a) (arg_top_k a) (arg_min_score a) w0)
      as [[out|ex] w1]; simpl; eauto. }
  unfold main. destruct (arg_classify a).
  - destruct (classify (arg_image a)); simpl; eauto.
  - destruct (arg_rebuild a); [| specialize (Hs w)].
    + destruct (ensure_index true w) as [[idx|ex] w1] eqn:He.
      * specialize (Hs w1).
        destruct (status (search_and_print a w1).1); [exact Hs | exact Hs | contradiction].
      * simpl. pose proof (ensure_index_Raise_world _ _ _ _ He) as ->. auto.
    + destruct (status (search_and_print a w).1); [exact Hs | exact Hs | contradiction].
Qed.

End CommandLineFacts.

Lemma unparsable_index_blocks_rebuild_witness :
  ensure_index (C:=clip_demo) true world_unparsable
  = (Raise JSONDecodeError, world_unparsable).
Proof.
  apply (proj1 (unparsable_index_blocks_rebuild (C:=clip_demo) (T:=topk_first)
                  true "q" default_top_k default_min_score world_unparsable
                  catalog3 "{" eq_refl eq_refl)).
Defined.

Lemma search_swapped_catalog_witness :
  search (C:=clip_demo) (T:=topk_first) "q" default_top_k default_min_score
    world_swapped
  = (Raise EmptyEmbeddingsIndex, world_swapped).
Proof.
  apply (search_swapped_catalog (C:=clip_demo) (T:=topk_first) "q" default_top_k
           default_min_score world_swapped [prod3] (payload items_p1_p2 world0)
           2 items_p1_p2 eq_refl eq_refl eq_refl eq_refl).
  - simpl. lia.
  - reflexivity.
  - intros it p Hit Hp. apply list_elem_of_singleton in Hp as ->.
    unfold items_p1_p2 in Hit.
    apply elem_of_cons in Hit as [-> | Hit]; [discriminate |].
    apply list_elem_of_singleton in Hit as ->. discriminate.
Defined.

Lemma search_index_without_items_witness :
  search (C:=clip_demo) (T:=topk_first) "q" default_top_k default_min_score
    world_no_items
  = (Raise (KeyError "items"), world_no_items).
Proof.
  apply (search_index_without_items (C:=clip_demo) (T:=topk_first) "q"
           default_top_k default_min_score world_no_items catalog3
           {| ix_model := Some MODEL_NAME; ix_created_at := None;
              ix_count := Some 3%Z; ix_items := None |} 3
           eq_refl eq_refl eq_refl eq_refl).
  - simpl. lia.
  - reflexivity.
Defined.

Lemma classify_category_known_witness :
  "Shoes" ∈ categories /\ "Uploaded Shoes" = "Uploaded " +:+ "Shoes".
Proof.
  apply (classify_category_known (C:=clip_demo) (X:=text_demo) "q"
           {| c_category := "Shoes"; c_name := "Uploaded Shoes" |}).
  vm_compute. reflexivity.
Defined.

Lemma classify_first_best_witness :
  exists i best v,
    classify (C:=clip_demo) (X:=text_demo) "q"
    = Ok {| c_category := best; c_name := "Uploaded " +:+ best |}
    /\ categories !! i = Some best
    /\ (dot [1%Q] <$> [[1%Q]; [2%Q]; [1%Q]; [1%Q]; [1%Q]; [1%Q]]) !! i = Some v
    /\ (forall j x,
          (dot [1%Q] <$> [[1%Q]; [2%Q]; [1%Q]; [1%Q]; [1%Q]; [1%Q]]) !! j = Some x ->
          (x <= v)%Q)
    /\ (forall j x,
          (dot [1%Q] <$> [[1%Q]; [2%Q]; [1%Q]; [1%Q]; [1%Q]; [1%Q]]) !! j = Some x ->
          j < i -> (x < v)%Q).
Proof.
  apply (classify_first_best (C:=clip_demo) (X:=text_demo) "q"
           [[1%Q]; [2%Q]; [1%Q]; [1%Q]; [1%Q]; [1%Q]] [1%Q]).
  - vm_compute. reflexivity.
  - vm_compute. reflexivity.
  - repeat constructor.
  - reflexivity.
Defined.

Lemma main_classify_mode_witness :
  (main (C:=clip_demo) (T:=topk_first) (X:=text_demo) args_classify world_unparsable).2
  = world_unparsable.
Proof.
  apply (proj1 (main_classify_mode (C:=clip_demo) (T:=topk_first) (X:=text_demo)
                  args_classify world_unparsable eq_refl)).
Defined.

(** * cosine_similarity *)

Lemma Qmult_comm_eq (x y : Q) : (x * y)%Q = (y * x)%Q.
Proof.
  destruct x as [n d], y as [n' d']. unfold Qmult. simpl.
  rewrite Z.mul_comm, Pos.mul_comm. reflexivity.
Qed.

Lemma dot_comm (a b : list Q) : dot a b = dot b a.
Proof.
  revert b. induction a as [|x a IH]; intros [|y b]; try reflexivity.
  rewrite !dot_cons, IH, Qmult_comm_eq. reflexivity.
Qed.

Lemma rectangular_iff (rows : list (list Q)) :
  rectangular rows = true <-> exists n, Forall (fun r => length r = n) rows.
Proof.
  split.
  - destruct rows as [|r rs]; [exists 0; constructor |].
    intros H. exists (length r). apply rectangular_Forall, H.
  - intros [n H]. apply (rectangular_same_length n), H.
Qed.

Lemma rectangular_app_comm (a b : list (list Q)) :
  rectangular (a ++ b) = rectangular (b ++ a).
Proof.
  apply eq_true_iff_eq. rewrite !rectangular_iff.
  split; intros [n H]; exists n; apply Forall_app in H as [H1 H2];
    apply Forall_app; auto.
Qed.

Lemma entry_cosine (a b : list (list Q)) (i j : nat) :
  entry ((fun ra => dot ra <$> b) <$> a) i j
  = ra ← a !! i; rb ← b !! j; Some (dot ra rb).
Proof.
  unfold entry. rewrite list_lookup_fmap.
  destruct (a !! i) as [ra|]; [| reflexivity]. simpl.
  rewrite list_lookup_fmap. destruct (b !! j); reflexivity.
Qed.

(** X20.  [cosine_similarity] has one row for each row of [a] and one
    column for each row of [b], its entries are the dot products of the
    rows, and swapping the arguments transposes the result. *)
Theorem cosine_similarity_transpose (a b m : list (list Q)) :
  cosine_similarity a b = Ok m ->
  length m = length a
  /\ Forall (fun row => length row = length b) m
  /\ (forall i j, entry m i j = ra ← a !! i; rb ← b !! j; Some (dot ra rb))
  /\ exists m', cosine_similarity b a = Ok m'
               /\ forall i j, entry m' j i = entry m i j.
Proof.
  unfold cosine_similarity. rewrite (rectangular_app_comm b a).
  destruct (rectangular (a ++ b)); [| discriminate].
  intros [= <-]. split; [apply length_fmap |]. split.
  - apply Forall_fmap, Forall_forall. intros ra _. simpl. apply length_fmap.
  - split; [apply entry_cosine |].
    eexists. split; [reflexivity |]. intros i j. rewrite !entry_cosine.
    destruct (a !! i) as [ra|], (b !! j) as [rb|]; simpl; try reflexivity.
    rewrite dot_comm. reflexivity.
Qed.

Lemma cosine_similarity_transpose_witness :
  exists m', cosine_similarity [[1%Q]; [(-1)%Q]] [[1%Q]] = Ok m'
             /\ forall i j, entry m' j i = entry [[1%Q; (-1)%Q]] i j.
Proof.
  apply (cosine_similarity_transpose [[1%Q]] [[1%Q]; [(-1)%Q]] [[1%Q; (-1)%Q]]).
  vm_compute. reflexivity.
Defined.

(** The scores that [query] ranks are the one row of [cosine_similarity]
    between the query and the retained embeddings. *)
Lemma scores_cosine_similarity (q : list Q) (items : list vector_record)
    (products : list product) (m : list (list Q)) :
  cosine_similarity [q] (v_embedding <$> retained (catalog_map products) items) = Ok m ->
  m = [scores q items products].
Proof.
  unfold cosine_similarity.
  destruct (rectangular _); [| discriminate]. intros [= <-]. reflexivity.
Qed.
